(** * User Data Explorer: the client-side data pipeline

    A shallow embedding of the React front end ([App.js]) and of its Web
    Worker ([worker.js]): the expiring cache kept in [localStorage], the
    parallel page fetch with its merge step, the streaming ingestor of
    newline-delimited JSON, and the two processing paths (worker and main
    thread); and of the mock server ([server.js]) that gives the pages
    and the stream.

    Conventions of the embedding.
    - JavaScript numbers that the program uses as counters, identifiers,
      ages and timestamps are integers, modelled by [Z].
    - JavaScript strings are modelled by [string]; a character stands for
      the code unit of the same number (U+0000 to U+00FF).
    - React state is threaded explicitly through the record [App];
      a setter call becomes a record update, and the values a handler
      closes over ([minAge], [sortBy], [dataSettings]) are arguments.
    - Everything the environment decides (clock readings, the outcome of
      a network request, the chunks of a response body, the runtime's
      [JSON.parse] and [localeCompare]) is an argument or a section
      variable. *)

From Stdlib Require Import ZArith List String Ascii Bool Lia Sorted.
From stdpp Require Import base list strings gmap pretty.
Import ListNotations.

Local Open Scope Z_scope.

(* ================================================================== *)
(** * Part I: the program *)
(* ================================================================== *)

(** ** JavaScript values *)

(** The values [JSON.parse] can return, and [undefined] for a missing
    property. *)
#[local] Set Warnings "-register-all".
Inductive JsValue : Type :=
| JUndefined
| JNull
| JBool (b : bool)
| JNum (n : Z)
| JStr (s : string)
| JArr (items : list JsValue)
| JObj (fields : list (string * JsValue)).
#[local] Set Warnings "register-all".

(** The exceptions the program can see. [InvalidUserData] is
    [new Error('Invalid user data')], [HttpError] is the error thrown on a
    response that is not ok, [StreamNotSupported] the one thrown when the
    response has no body, [FetchRejected] a rejected request. *)
Inductive JsError : Type :=
| SyntaxError
| TypeError
| InvalidUserData
| HttpError (status : Z)
| StreamNotSupported
| FetchRejected (reason : string).

(** What [console.error] was called with. *)
Inductive LogEntry : Type :=
| ErrorParsingChunk (line : string) (error : JsError)
| StreamingFailed (error : JsError)
| ErrorFetchingData (error : JsError)
| WorkerError.

(** [ToBoolean]: [undefined], [null], [false], [0] and the empty string
    are falsy, every object and array is truthy. *)
Definition truthy (v : JsValue) : bool :=
  match v with
  | JUndefined | JNull => false
  | JBool b => b
  | JNum n => negb (n =? 0)
  | JStr s => negb (String.eqb s EmptyString)
  | JArr _ | JObj _ => true
  end.

(** [a === b] for two values that come from two different calls of
    [JSON.parse]: primitives are compared by type and value, while two
    objects (or arrays) are two different references and never equal. *)
Definition strict_eq (a b : JsValue) : bool :=
  match a, b with
  | JUndefined, JUndefined => true
  | JNull, JNull => true
  | JBool x, JBool y => Bool.eqb x y
  | JNum x, JNum y => x =? y
  | JStr x, JStr y => String.eqb x y
  | _, _ => false
  end.

Fixpoint own_property (key : string) (fields : list (string * JsValue))
  : JsValue :=
  match fields with
  | [] => JUndefined
  | (k, v) :: rest =>
      if String.eqb k key then v else own_property key rest
  end.

(** [v.key] for [key] one of [id] and [name], which no prototype of a
    parsed value defines: reading it from [null] or [undefined] throws a
    [TypeError], an object gives its own property, any other value gives
    [undefined]. *)
Definition get_prop (v : JsValue) (key : string) : JsError + JsValue :=
  match v with
  | JUndefined | JNull => inl TypeError
  | JObj fields => inr (own_property key fields)
  | _ => inr JUndefined
  end.

(** ** Strings *)

Definition newline : ascii := "010"%char.

(** White space in the sense of [String.prototype.trim], among the code
    units up to U+00FF: tab, line feed, vertical tab, form feed, carriage
    return, space and the no-break space. *)
Definition is_white_space (c : ascii) : bool :=
  match c with
  | "009" | "010" | "011" | "012" | "013" | " " | "160" => true
  | _ => false
  end%char.

Fixpoint trimStart (s : string) : string :=
  match s with
  | EmptyString => EmptyString
  | String c s' => if is_white_space c then trimStart s' else s
  end.

Fixpoint trimEnd (s : string) : string :=
  match s with
  | EmptyString => EmptyString
  | String c s' =>
      match trimEnd s' with
      | EmptyString => if is_white_space c then EmptyString
                       else String c EmptyString
      | t => String c t
      end
  end.

(** [s.trim()] *)
Definition trim (s : string) : string := trimEnd (trimStart s).

(** [s.split('\n')]: the pieces between the line feeds; never empty. *)
Fixpoint split_newline (s : string) : list string :=
  match s with
  | EmptyString => [EmptyString]
  | String c s' =>
      if Ascii.eqb c newline then EmptyString :: split_newline s'
      else match split_newline s' with
           | [] => [String c EmptyString]
           | piece :: pieces => String c piece :: pieces
           end
  end.

(** [lines.slice(0, -1)] *)
Definition slice_but_last {A} (l : list A) : list A := removelast l.

(** [lines[lines.length - 1]] for the result of a split *)
Definition last_piece (l : list string) : string := List.last l EmptyString.

(** ** The expiring cache (App.js, lines 28 to 51) *)

Record User : Type := mkUser {
  user_id : Z;
  user_name : string;
  user_age : Z;
  user_email : string
}.

(** What [saveToCache] serialises: [{ data, timestamp }]. The store keeps
    the entry itself: [JSON.parse (JSON.stringify e)] gives back an equal
    entry for an array of user records. *)
Record CacheEntry : Type := mkEntry {
  entry_data : list User;
  entry_timestamp : Z
}.

Definition CACHE_EXPIRY : Z := 5 * 60 * 1000.
Definition USERS_PER_PAGE : Z := 10.

(** [now] is the reading of [Date.now()]. *)
Definition saveToCache (now : Z) (key : string) (data : list User)
  (storage : gmap string CacheEntry) : gmap string CacheEntry :=
  let cacheData := {| entry_data := data; entry_timestamp := now |} in
  <[key := cacheData]> storage.

(** The result is the returned value ([None] for [null]) and the storage
    after the call. *)
Definition getFromCache (now : Z) (key : string)
  (storage : gmap string CacheEntry)
  : option (list User) * gmap string CacheEntry :=
  match storage !! key with
  | None => (None, storage)
  | Some cached =>
      if now - entry_timestamp cached >? CACHE_EXPIRY
      then (None, delete key storage)
      else (Some (entry_data cached), storage)
  end.

(** ** Component state (App.js, lines 7 to 25) *)

Record Metrics : Type := mkMetrics {
  promiseAll : Z;
  promiseAllSettled : Z;
  workerTime : Z;
  mainThreadTime : Z
}.

(** The state of the component together with the two pieces of the browser
    it writes to: [localStorage] and the console. *)
Record App : Type := mkApp {
  users : list User;
  streamUsers : list JsValue;
  loading : bool;
  dataSource : option string;
  metrics : Metrics;
  localStorage : gmap string CacheEntry;
  console : list LogEntry
}.

Definition initial_metrics : Metrics :=
  {| promiseAll := 0; promiseAllSettled := 0;
     workerTime := 0; mainThreadTime := 0 |}.

(** The state after the first render, before any effect has run. *)
Definition initial_app (storage : gmap string CacheEntry) : App :=
  {| users := []; streamUsers := []; loading := false;
     dataSource := None; metrics := initial_metrics;
     localStorage := storage; console := [] |}.

Definition setUsers (v : list User) (st : App) : App :=
  mkApp v (streamUsers st) (loading st) (dataSource st) (metrics st)
        (localStorage st) (console st).

Definition setStreamUsers (f : list JsValue -> list JsValue) (st : App)
  : App :=
  mkApp (users st) (f (streamUsers st)) (loading st) (dataSource st)
        (metrics st) (localStorage st) (console st).

Definition setLoading (v : bool) (st : App) : App :=
  mkApp (users st) (streamUsers st) v (dataSource st) (metrics st)
        (localStorage st) (console st).

Definition setDataSource (v : string) (st : App) : App :=
  mkApp (users st) (streamUsers st) (loading st) (Some v) (metrics st)
        (localStorage st) (console st).

Definition setMetrics (f : Metrics -> Metrics) (st : App) : App :=
  mkApp (users st) (streamUsers st) (loading st) (dataSource st)
        (f (metrics st)) (localStorage st) (console st).

Definition set_localStorage (v : gmap string CacheEntry) (st : App) : App :=
  mkApp (users st) (streamUsers st) (loading st) (dataSource st)
        (metrics st) v (console st).

Definition console_error (entry : LogEntry) (st : App) : App :=
  mkApp (users st) (streamUsers st) (loading st) (dataSource st)
        (metrics st) (localStorage st) (console st ++ [entry]).

(** ** Array helpers *)

(** [Array.prototype.sort] with a comparator. The sort is stable; with a
    comparator that is a consistent order every conforming engine gives
    the result of this insertion sort. [compareFn a b > 0] puts [b]
    first; otherwise [a] stays before [b]. *)
Fixpoint sort_insert {A} (compareFn : A -> A -> Z) (a : A) (sorted : list A)
  : list A :=
  match sorted with
  | [] => [a]
  | b :: rest =>
      if compareFn a b >? 0 then b :: sort_insert compareFn a rest
      else a :: b :: rest
  end.

Fixpoint Array_sort {A} (compareFn : A -> A -> Z) (l : list A) : list A :=
  match l with
  | [] => []
  | a :: rest => sort_insert compareFn a (Array_sort compareFn rest)
  end.

(** [l.findIndex(p)], [-1] when no element satisfies [p]. *)
Fixpoint findIndex {A} (p : A -> bool) (l : list A) : Z :=
  match l with
  | [] => -1
  | x :: rest =>
      if p x then 0
      else let i := findIndex p rest in
           if i =? -1 then -1 else i + 1
  end.

(** [self.filter((x, index, self) => p x index self)]: [from] is the index
    of the head of [l] in [self]. *)
Fixpoint filter_from {A} (p : A -> Z -> list A -> bool) (self : list A)
  (from : Z) (l : list A) : list A :=
  match l with
  | [] => []
  | x :: rest =>
      if p x from self then x :: filter_from p self (from + 1) rest
      else filter_from p self (from + 1) rest
  end.

Definition filter_indexed {A} (p : A -> Z -> list A -> bool) (self : list A)
  : list A :=
  filter_from p self 0 self.

(** ** Data processing (App.js, lines 123 to 174, and worker.js) *)

Section Processing.

(** [a.localeCompare(b)] of the runtime: negative, zero or positive. *)
Variable localeCompare : string -> string -> Z.

(** The comparator both paths pass to [sort]. *)
Definition compare_users (sortBy : string) (a b : User) : Z :=
  if String.eqb sortBy "name"
  then localeCompare (user_name a) (user_name b)
  else user_age a - user_age b.

(** The message posted to the worker, and its answer. *)
Record WorkerRequest : Type := mkRequest {
  req_users : list User;
  req_minAge : Z;
  req_sortBy : string
}.

Record WorkerResponse : Type := mkResponse {
  resp_users : list User;
  resp_processingTime : Z
}.

(** worker.js, line 6 *)
Definition worker_filteredUsers (e : WorkerRequest) : list User :=
  List.filter (fun user => user_age user >? req_minAge e) (req_users e).

(** worker.js, [self.onmessage]; [t0] and [t1] are the two readings of
    [performance.now()]. The result is the message posted back. *)
Definition worker_onmessage (t0 t1 : Z) (e : WorkerRequest)
  : WorkerResponse :=
  let startTime := t0 in
  let filteredUsers := worker_filteredUsers e in
  let sortedUsers :=
    Array_sort (compare_users (req_sortBy e)) filteredUsers in
  let processingTime := t1 - startTime in
  {| resp_users := sortedUsers; resp_processingTime := processingTime |}.

(** What happens to the worker once the request is posted: it answers
    (with its two clock readings), or it raises an error event, as when
    the script cannot be loaded. *)
Inductive WorkerRun : Type :=
| WorkerReplies (t0 t1 : Z)
| WorkerFails.

(** App.js, [processWithWorker]. Posting a message copies it (structured
    clone), which is the identity on these immutable values. *)
Definition processWithWorker (run : WorkerRun) (minAge : Z)
  (sortBy : string) (st : App) : App :=
  if (Z.of_nat (length (users st)) =? 0)%Z then st
  else
    match run with
    | WorkerReplies t0 t1 =>
        let data :=
          worker_onmessage t0 t1
            {| req_users := users st; req_minAge := minAge;
               req_sortBy := sortBy |} in
        setMetrics
          (fun prev => mkMetrics (promiseAll prev) (promiseAllSettled prev)
                                 (resp_processingTime data)
                                 (mainThreadTime prev))
          (setUsers (resp_users data) st)
    | WorkerFails => console_error WorkerError st
    end.

(** App.js, line 154 *)
Definition main_filteredUsers (minAge : Z) (st : App) : list User :=
  List.filter (fun user => user_age user >? minAge) (users st).

(** App.js, [processInMainThread]. *)
Definition processInMainThread (t0 t1 : Z) (minAge : Z) (sortBy : string)
  (st : App) : App :=
  let startTime := t0 in
  let filteredUsers := main_filteredUsers minAge st in
  let sortedUsers := Array_sort (compare_users sortBy) filteredUsers in
  setMetrics
    (fun prev => mkMetrics (promiseAll prev) (promiseAllSettled prev)
                           (workerTime prev) (t1 - startTime))
    (setUsers sortedUsers st).

(** App.js, [handleProcessData]. *)
Definition handleProcessData (useWorker : bool) (run : WorkerRun)
  (t0 t1 : Z) (minAge : Z) (sortBy : string) (st : App) : App :=
  if useWorker then processWithWorker run minAge sortBy st
  else processInMainThread t0 t1 minAge sortBy st.

End Processing.

(** ** Parallel fetch (App.js, lines 53 to 121) *)

(** How a promise settles; also one result of [Promise.allSettled]. *)
Inductive Settled (A : Type) : Type :=
| Fulfilled (value : A)
| Rejected (reason : JsError).
Arguments Fulfilled {A} value.
Arguments Rejected {A} reason.

(** [result.status] *)
Definition status {A} (result : Settled A) : string :=
  match result with
  | Fulfilled _ => "fulfilled"
  | Rejected _ => "rejected"
  end.

(** [result.value] of a result of a page request. A rejected result has
    no value; the program reads it from fulfilled results only. *)
Definition result_value (result : Settled (list User)) : list User :=
  match result with
  | Fulfilled value => value
  | Rejected _ => []
  end.

(** [await Promise.all(promises)]: the list of the values when all are
    fulfilled, otherwise a rejection. The order in which requests settle
    is not modelled: the reason is that of the first rejected one in the
    list. *)
Fixpoint Promise_all {A} (promises : list (Settled A)) : Settled (list A) :=
  match promises with
  | [] => Fulfilled []
  | Rejected reason :: _ => Rejected reason
  | Fulfilled value :: rest =>
      match Promise_all rest with
      | Fulfilled values => Fulfilled (value :: values)
      | Rejected reason => Rejected reason
      end
  end.

(** [await Promise.allSettled(promises)]: never rejects, one result per
    promise. *)
Definition Promise_allSettled {A} (promises : list (Settled A))
  : list (Settled A) := promises.

(** What the environment decides during one call of [fetchParallelData]:
    the clock readings and how the request of each page settles, once
    for the requests under [Promise.all] and once for those under
    [Promise.allSettled] (a settled request stands for
    [fetch(url).then(res => res.json())]). *)
Record FetchEnv : Type := mkFetchEnv {
  now_lookup : Z;
  promiseAllStart : Z;
  fetch_all : Z -> Settled (list User);
  promiseAllEnd : Z;
  promiseSettledStart : Z;
  fetch_settled : Z -> Settled (list User);
  promiseSettledEnd : Z;
  now_save : Z
}.

(** [Array.from({ length: pagesToFetch }, (_, i) => i + 1)] *)
Definition page_numbers (pagesToFetch : Z) : list Z :=
  List.map (fun i => Z.of_nat i + 1) (List.seq 0 (Z.to_nat pagesToFetch)).

(** App.js, lines 94 to 98: the records of the fulfilled results. *)
Definition successfulData (settledResponses : list (Settled (list User)))
  : list User :=
  List.concat
    (List.map result_value
       (List.filter (fun result => String.eqb (status result) "fulfilled")
                    settledResponses)).

(** App.js, lines 101 to 103: combine and remove duplicates. *)
Definition combinedUsers (allUsers successful : list User) : list User :=
  filter_indexed
    (fun user index self =>
       index =? findIndex (fun u => user_id u =? user_id user) self)
    (allUsers ++ successful).

(** App.js, [fetchParallelData]. *)
Definition fetchParallelData (env : FetchEnv) (pagesToFetch : Z) (st : App)
  : App :=
  let st := setLoading true st in
  let (cachedData, storage) :=
    getFromCache (now_lookup env) "users" (localStorage st) in
  let st := set_localStorage storage st in
  match cachedData with
  | Some data =>
      setLoading false (setDataSource "cache" (setUsers data st))
  | None =>
      let pages := page_numbers pagesToFetch in
      match Promise_all (List.map (fetch_all env) pages) with
      | Rejected error =>
          (* catch, then finally *)
          setLoading false (console_error (ErrorFetchingData error) st)
      | Fulfilled allResponses =>
          let settledResponses :=
            Promise_allSettled (List.map (fetch_settled env) pages) in
          let allUsers := List.concat allResponses in
          let successful := successfulData settledResponses in
          let combined := combinedUsers allUsers successful in
          let st := setUsers combined st in
          let st := setDataSource "server" st in
          let st :=
            setMetrics
              (fun prev =>
                 mkMetrics (promiseAllEnd env - promiseAllStart env)
                           (promiseSettledEnd env - promiseSettledStart env)
                           (workerTime prev) (mainThreadTime prev)) st in
          let st :=
            set_localStorage
              (saveToCache (now_save env) "users" combined (localStorage st))
              st in
          setLoading false st
      end
  end.

(** App.js, [refreshData]. *)
Definition refreshData (env : FetchEnv) (pagesToFetch : Z) (st : App) : App :=
  fetchParallelData env pagesToFetch
    (set_localStorage (delete "users" (localStorage st)) st).

(** ** Streaming (App.js, lines 176 to 218) *)

(** The response of [fetch]: [response.ok], [response.status] and
    [response.body], the body being the chunks its reader will deliver, as
    text. The decoder is called with [stream: true], so a character cut
    by a chunk boundary is decoded as in the uncut text: a chunk of the
    model is the text the decoder returns for it. *)
Record Response : Type := mkHttpResponse {
  ok : bool;
  http_status : Z;
  body : option (list string)
}.

(** A [ReadableStreamDefaultReader]: the chunks it has not delivered yet,
    the number of [read()] calls it served, whether it still holds the
    lock of the stream, and whether the stream was cancelled through it. *)
Record Reader : Type := mkReader {
  pending : list string;
  reads : nat;
  locked : bool;
  cancelled : bool
}.

(** [response.body.getReader()] *)
Definition getReader (chunks : list string) : Reader :=
  {| pending := chunks; reads := 0; locked := true; cancelled := false |}.

(** [reader.cancel()] and [reader.releaseLock()], the two ways the
    interface offers to give the stream up. [streamData] calls neither. *)
Definition reader_cancel (r : Reader) : Reader :=
  {| pending := []; reads := reads r; locked := locked r;
     cancelled := true |}.

Definition reader_releaseLock (r : Reader) : Reader :=
  {| pending := pending r; reads := reads r; locked := false;
     cancelled := cancelled r |}.

(** The component state and the locals of [streamData] when it returns;
    [run_reader] is [None] when no reader was obtained. *)
Record StreamRun : Type := mkRun {
  run_app : App;
  run_receivedCount : Z;
  run_buffer : string;
  run_reader : option Reader
}.

(** How the [try] block of one line ends: by [continue] on a blank line,
    by reaching its end with a user, or by an exception. *)
Inductive LineResult : Type :=
| LineBlank
| LineAccepted (user : JsValue)
| LineThrows (error : JsError).

(** [v.key] inside the state updater, where [v] passed validation. *)
Definition field (v : JsValue) (key : string) : JsValue :=
  match get_prop v key with
  | inr x => x
  | inl _ => JUndefined
  end.

(** App.js, lines 204 to 207: the updater given to [setStreamUsers]. *)
Definition append_unless_exists (user : JsValue) (prev : list JsValue)
  : list JsValue :=
  let exists_ :=
    existsb (fun u => strict_eq (field u "id") (field user "id")) prev in
  if exists_ then prev else prev ++ [user].

Section Streaming.

(** [JSON.parse] of the runtime; [None] when it throws a [SyntaxError]. *)
Variable JSON_parse : string -> option JsValue.

(** App.js, lines 200 to 202. *)
Definition try_line (line : string) : LineResult :=
  if String.eqb (trim line) EmptyString then LineBlank
  else
    match JSON_parse line with
    | None => LineThrows SyntaxError
    | Some user =>
        match get_prop user "id" with
        | inl error => LineThrows error
        | inr id =>
            if negb (truthy id) then LineThrows InvalidUserData
            else
              match get_prop user "name" with
              | inl error => LineThrows error
              | inr name =>
                  if negb (truthy name) then LineThrows InvalidUserData
                  else LineAccepted user
              end
        end
    end.

(** App.js, lines 199 to 211: the body of the [for] loop after its guard,
    on the component state and [receivedCount]. *)
Definition step_line (line : string) (s : App * Z) : App * Z :=
  let (st, receivedCount) := s in
  match try_line line with
  | LineBlank => (st, receivedCount)
  | LineAccepted user =>
      (setStreamUsers (append_unless_exists user) st, receivedCount + 1)
  | LineThrows error =>
      (console_error (ErrorParsingChunk line error) st, receivedCount)
  end.

(** App.js, lines 196 to 212: the [for] loop over the complete lines. *)
Fixpoint for_lines (streamLimit : Z) (lines : list string) (s : App * Z)
  : App * Z :=
  match lines with
  | [] => s
  | line :: rest =>
      if snd s >=? streamLimit then s  (* break *)
      else for_lines streamLimit rest (step_line line s)
  end.

(** App.js, lines 189 to 214: the [while] loop. [chunks] are the chunks
    the reader has not delivered and [nreads] the reads it served; the
    result gives both back, with the locals and the state. *)
Fixpoint read_loop (streamLimit : Z) (chunks : list string) (nreads : nat)
  (buffer : string) (s : App * Z) : (App * Z) * string * (list string * nat) :=
  if snd s <? streamLimit then
    match chunks with
    | [] =>
        (* read() resolves with done: break *)
        (s, buffer, ([], S nreads))
    | value :: rest =>
        let buffer := buffer +:+ value in
        let lines := split_newline buffer in
        let s := for_lines streamLimit (slice_but_last lines) s in
        read_loop streamLimit rest (S nreads) (last_piece lines) s
    end
  else (s, buffer, (chunks, nreads)).

(** App.js, [streamData]; [fetched] is how the request settles. *)
Definition streamData (fetched : Settled Response) (streamLimit : Z)
  (st : App) : StreamRun :=
  let st := setStreamUsers (fun _ => []) st in
  let failed error :=
    {| run_app := console_error (StreamingFailed error) st;
       run_receivedCount := 0; run_buffer := EmptyString;
       run_reader := None |} in
  match fetched with
  | Rejected error => failed error
  | Fulfilled response =>
      if negb (ok response) then failed (HttpError (http_status response))
      else
        match body response with
        | None => failed StreamNotSupported
        | Some chunks =>
            let reader := getReader chunks in
            let '(s, buffer, (rest, nreads)) :=
              read_loop streamLimit (pending reader) (reads reader)
                        EmptyString (st, 0) in
            {| run_app := fst s;
               run_receivedCount := snd s;
               run_buffer := buffer;
               run_reader :=
                 Some {| pending := rest; reads := nreads;
                         locked := locked reader;
                         cancelled := cancelled reader |} |}
        end
  end.

End Streaming.

(** ** A JSON parser for the examples

    The theorems below hold for every [JSON_parse]. The examples need one
    that computes: [parse_json] follows the JSON grammar for [null],
    [true], [false], integers, strings (with the one-letter escapes),
    arrays and objects. Outside this fragment (a fraction or an exponent
    in a number, a [\u] escape) it answers [None], so it agrees with the
    runtime's [JSON.parse] on texts that stay inside the fragment, and the
    examples use no other. *)

Definition double_quote : ascii := "034"%char.
Definition backslash : ascii := "092"%char.

Definition is_json_space (c : ascii) : bool :=
  match c with
  | " " | "009" | "010" | "013" => true
  | _ => false
  end%char.

Fixpoint skip_space (s : string) : string :=
  match s with
  | String c s' => if is_json_space c then skip_space s' else s
  | EmptyString => s
  end.

Definition digit_value (c : ascii) : option Z :=
  let n := Z.of_nat (nat_of_ascii c) in
  if (48 <=? n) && (n <=? 57) then Some (n - 48) else None.

Fixpoint read_digits (acc : Z) (s : string) : Z * string :=
  match s with
  | String c s' =>
      match digit_value c with
      | Some d => read_digits (acc * 10 + d) s'
      | None => (acc, s)
      end
  | EmptyString => (acc, s)
  end.

(** What may not follow the integer part: a digit after a leading zero is
    a syntax error, a fraction or an exponent is outside the fragment. *)
Definition continues_number (s : string) : bool :=
  match s with
  | String c _ =>
      match digit_value c with
      | Some _ => true
      | None =>
          match c with
          | "." | "e" | "E" => true
          | _ => false
          end%char
      end
  | EmptyString => false
  end.

Definition read_number (s : string) : option (Z * string) :=
  let (negative, s1) :=
    match s with
    | String "-"%char s' => (true, s')
    | _ => (false, s)
    end in
  match s1 with
  | String c s2 =>
      match digit_value c with
      | None => None
      | Some d =>
          let (n, rest) := if d =? 0 then (0, s2) else read_digits d s2 in
          if continues_number rest then None
          else Some (if negative : bool then - n else n, rest)
      end
  | EmptyString => None
  end.

Definition unescape (c : ascii) : option ascii :=
  match c with
  | "034" => Some "034"
  | "092" => Some "092"
  | "/" => Some "/"
  | "b" => Some "008"
  | "f" => Some "012"
  | "n" => Some "010"
  | "r" => Some "013"
  | "t" => Some "009"
  | _ => None
  end%char.

(** The characters of a string literal after its opening quote, and the
    text after its closing quote. *)
Fixpoint read_string (s : string) : option (string * string) :=
  match s with
  | EmptyString => None
  | String c s' =>
      if Ascii.eqb c double_quote then Some (EmptyString, s')
      else if Ascii.eqb c backslash then
        match s' with
        | String e s'' =>
            match unescape e, read_string s'' with
            | Some ch, Some (t, rest) => Some (String ch t, rest)
            | _, _ => None
            end
        | EmptyString => None
        end
      else if (nat_of_ascii c <? 32)%nat then None
      else
        match read_string s' with
        | Some (t, rest) => Some (String c t, rest)
        | None => None
        end
  end.

Fixpoint strip_prefix (p s : string) : option string :=
  match p, s with
  | EmptyString, _ => Some s
  | String a p', String b s' =>
      if Ascii.eqb a b then strip_prefix p' s' else None
  | String _ _, EmptyString => None
  end.

(** A later member with the same key replaces the value of the earlier. *)
Fixpoint set_property (key : string) (v : JsValue)
  (fields : list (string * JsValue)) : list (string * JsValue) :=
  match fields with
  | [] => [(key, v)]
  | (k, w) :: rest =>
      if String.eqb k key then (k, v) :: rest
      else (k, w) :: set_property key v rest
  end.

Fixpoint read_value (fuel : nat) (s : string) : option (JsValue * string) :=
  match fuel with
  | O => None
  | S fuel =>
      match skip_space s with
      | EmptyString => None
      | String c s1 as s0 =>
          if Ascii.eqb c "n" then
            option_map (pair JNull) (strip_prefix "null" s0)
          else if Ascii.eqb c "t" then
            option_map (pair (JBool true)) (strip_prefix "true" s0)
          else if Ascii.eqb c "f" then
            option_map (pair (JBool false)) (strip_prefix "false" s0)
          else if Ascii.eqb c double_quote then
            match read_string s1 with
            | Some (t, rest) => Some (JStr t, rest)
            | None => None
            end
          else if Ascii.eqb c "[" then
            match skip_space s1 with
            | String "]"%char rest => Some (JArr [], rest)
            | s2 => read_elements fuel s2 []
            end
          else if Ascii.eqb c "{" then
            match skip_space s1 with
            | String "}"%char rest => Some (JObj [], rest)
            | s2 => read_members fuel s2 []
            end
          else
            match read_number s0 with
            | Some (n, rest) => Some (JNum n, rest)
            | None => None
            end
      end
  end
with read_elements (fuel : nat) (s : string) (acc : list JsValue)
  : option (JsValue * string) :=
  match fuel with
  | O => None
  | S fuel =>
      match read_value fuel s with
      | None => None
      | Some (v, rest) =>
          match skip_space rest with
          | String ","%char rest' => read_elements fuel rest' (acc ++ [v])
          | String "]"%char rest' => Some (JArr (acc ++ [v]), rest')
          | _ => None
          end
      end
  end
with read_members (fuel : nat) (s : string) (acc : list (string * JsValue))
  : option (JsValue * string) :=
  match fuel with
  | O => None
  | S fuel =>
      match skip_space s with
      | String c s1 =>
          if Ascii.eqb c double_quote then
            match read_string s1 with
            | None => None
            | Some (key, rest) =>
                match skip_space rest with
                | String ":"%char rest1 =>
                    match read_value fuel rest1 with
                    | None => None
                    | Some (v, rest2) =>
                        match skip_space rest2 with
                        | String ","%char rest3 =>
                            read_members fuel rest3 (set_property key v acc)
                        | String "}"%char rest3 =>
                            Some (JObj (set_property key v acc), rest3)
                        | _ => None
                        end
                    end
                | _ => None
                end
            end
          else None
      | EmptyString => None
      end
  end.

Definition parse_json (text : string) : option JsValue :=
  match read_value (S (String.length text)) text with
  | Some (v, rest) =>
      match skip_space rest with
      | EmptyString => Some v
      | String _ _ => None
      end
  | None => None
  end.

(** JSON texts are written with apostrophes in place of the double
    quotes: [json "{'id':1}"] is the text [{"id":1}]. *)
Fixpoint json (s : string) : string :=
  match s with
  | EmptyString => EmptyString
  | String c s' =>
      String (if Ascii.eqb c "'" then double_quote else c) (json s')
  end.

(** ** The merge policy in the words of the specification

    "Deduplicate by id, preserving first occurrence order": go through the
    records in order and keep a record when no earlier record had its id;
    [seen] holds the ids met so far. *)
Fixpoint first_occurrences (seen : list Z) (l : list User) : list User :=
  match l with
  | [] => []
  | u :: rest =>
      if existsb (Z.eqb (user_id u)) seen then first_occurrences seen rest
      else u :: first_occurrences (user_id u :: seen) rest
  end.

Definition dedupe_by_id (l : list User) : list User :=
  first_occurrences [] l.

(** ** The text of a stream *)

(** The whole text of a body: its chunks joined in order. *)
Definition concat_chunks (chunks : list string) : string :=
  fold_right String.append EmptyString chunks.

(** The lines of a text that are closed by a line feed. *)
Definition complete_lines (text : string) : list string :=
  slice_but_last (split_newline text).

(** The segment after the last line feed. *)
Definition trailing_segment (text : string) : string :=
  last_piece (split_newline text).

Fixpoint has_newline (s : string) : bool :=
  match s with
  | EmptyString => false
  | String c s' => Ascii.eqb c newline || has_newline s'
  end.

(** A line of the stream: the text and its line feed. *)
Definition terminated (text : string) : string :=
  text +:+ String newline EmptyString.

(** A response that is ok and whose body delivers [chunks]. *)
Definition ok_response (chunks : list string) : Settled Response :=
  Fulfilled {| ok := true; http_status := 200; body := Some chunks |}.

(** ** The state of the ingestor *)

(** A record counts as stored in the output sequence when it is there, or
    when a record with its id is (the updater left it out as a
    duplicate). *)
Definition stored (user : JsValue) (l : list JsValue) : Prop :=
  In user l \/
  existsb (fun u => strict_eq (field u "id") (field user "id")) l = true.

(** The state and the count of the ingestor: no more records are stored
    than were counted. *)
Definition counted (s : App * Z) : Prop :=
  Z.of_nat (length (streamUsers (fst s))) <= snd s.

(** Two states of the ingestor with the same output sequence and the same
    count. *)
Definition same_data (s1 s2 : App * Z) : Prop :=
  streamUsers (fst s1) = streamUsers (fst s2) /\ snd s1 = snd s2.

(** ** Data for the examples *)

Definition ann : User :=
  {| user_id := 1; user_name := "Ann"; user_age := 31;
     user_email := "ann@example.com" |}.

Definition bob : User :=
  {| user_id := 2; user_name := "Bob"; user_age := 30;
     user_email := "bob@example.com" |}.

(** Two records that share the id 1. *)
Definition ann_again : User :=
  {| user_id := 1; user_name := "Ann B."; user_age := 45;
     user_email := "ann.b@example.com" |}.

(** An environment in which the request of page 1 succeeds and every other
    request is rejected, under both aggregations. *)
Definition only_page_one (page : Z) : Settled (list User) :=
  if page =? 1 then Fulfilled [ann; bob]
  else Rejected (FetchRejected "Failed to fetch").

Definition one_page_fails : FetchEnv :=
  {| now_lookup := 1000;
     promiseAllStart := 0; fetch_all := only_page_one; promiseAllEnd := 300;
     promiseSettledStart := 300; fetch_settled := only_page_one;
     promiseSettledEnd := 600;
     now_save := 1600 |}.

(** The same environment with other outcomes under [Promise.allSettled]. *)
Definition with_fetch_settled (f : Z -> Settled (list User)) (env : FetchEnv)
  : FetchEnv :=
  {| now_lookup := now_lookup env;
     promiseAllStart := promiseAllStart env; fetch_all := fetch_all env;
     promiseAllEnd := promiseAllEnd env;
     promiseSettledStart := promiseSettledStart env; fetch_settled := f;
     promiseSettledEnd := promiseSettledEnd env;
     now_save := now_save env |}.

(** Lines for the examples, and the values they parse to. *)
Definition ann_text : string := json "{'id':1,'name':'Ann','age':31}".
Definition bob_text : string := json "{'id':2,'name':'Bob','age':30}".
Definition bad_text : string := "{bad json".
Definition zero_id_text : string := json "{'id':0,'name':'Zed','age':52}".
Definition no_name_text : string := json "{'id':7,'name':'','age':52}".

Definition ann_json : JsValue :=
  JObj [("id", JNum 1); ("name", JStr "Ann"); ("age", JNum 31)].
Definition bob_json : JsValue :=
  JObj [("id", JNum 2); ("name", JStr "Bob"); ("age", JNum 30)].

(** ** More of the processing paths *)

(** The records a sort by [sortBy] must not reorder among themselves:
    those with the name of [u] under the key [name], those with the age
    of [u] under any other key. *)
Definition same_key (sortBy : string) (u v : User) : bool :=
  if String.eqb sortBy "name" then String.eqb (user_name v) (user_name u)
  else user_age v =? user_age u.

(** A [localeCompare] for the examples: the order of the code units. *)
Definition by_code_units (a b : string) : Z :=
  match String.compare a b with
  | Lt => -1
  | Eq => 0
  | Gt => 1
  end.

Definition cid : User :=
  {| user_id := 3; user_name := "Cid"; user_age := 31;
     user_email := "cid@example.com" |}.

(** An environment in which every request is fulfilled: page [p] gives
    one record with id [p], under both aggregations. *)
Definition page_record (page : Z) : Settled (list User) :=
  Fulfilled
    [ {| user_id := page; user_name := "User"; user_age := 20 + page;
         user_email := "user@example.com" |} ].

Definition all_pages_arrive : FetchEnv :=
  {| now_lookup := 1000;
     promiseAllStart := 0; fetch_all := page_record; promiseAllEnd := 300;
     promiseSettledStart := 300; fetch_settled := page_record;
     promiseSettledEnd := 600;
     now_save := 1600 |}.

(** A later call, one minute after the save of [all_pages_arrive], in
    which no request would succeed. *)
Definition a_minute_later : FetchEnv :=
  {| now_lookup := 61600;
     promiseAllStart := 0; fetch_all := only_page_one; promiseAllEnd := 300;
     promiseSettledStart := 300; fetch_settled := only_page_one;
     promiseSettledEnd := 600;
     now_save := 62000 |}.

(** ** More of the ingestor *)

(** A record that passes the validation of App.js, line 202. *)
Definition valid_record (u : JsValue) : Prop :=
  truthy (field u "id") = true /\ truthy (field u "name") = true.

(** Two records whose ids are not [===]. *)
Definition ids_differ (u v : JsValue) : Prop :=
  strict_eq (field u "id") (field v "id") = false.

(** The records of the lines that pass parsing and validation, in the
    order of the lines. *)
Definition accepted_records (JSON_parse : string -> option JsValue)
  (lines : list string) : list JsValue :=
  flat_map
    (fun line =>
       match try_line JSON_parse line with
       | LineAccepted user => [user]
       | _ => []
       end) lines.


(** What [streamData] has no business with: the records of the parallel
    fetch, the cache, the loading flag, the data source, the metrics. *)
Definition same_outside_stream (a b : App) : Prop :=
  users a = users b /\
  localStorage a = localStorage b /\
  loading a = loading b /\
  dataSource a = dataSource b /\
  metrics a = metrics b.

(** A response with a body that is not ok, as a server error gives. *)
Definition server_error : Settled Response :=
  Fulfilled {| ok := false; http_status := 500;
               body := Some [terminated ann_text] |}.

(** ** The mock server (server.js) *)

(** [parseInt(text) || fallback]: [parsed] is the result of [parseInt],
    [None] for [NaN]; [NaN] and [0] are falsy. *)
Definition or_else (parsed : option Z) (fallback : Z) : Z :=
  match parsed with
  | Some n => if n =? 0 then fallback else n
  | None => fallback
  end.

(** server.js, [createUser], on the counter [userIdCounter]. The id is
    the counter before its increment; the template literals of the name
    and of the email read the counter after it. [draw] is the value of
    [Math.floor(Math.random() * 50)]. The result is the record and the
    counter after the call. *)
Definition createUser (draw : Z) (userIdCounter : Z) : User * Z :=
  let id := userIdCounter in
  let userIdCounter := userIdCounter + 1 in
  ({| user_id := id;
      user_name := "User " +:+ pretty userIdCounter;
      user_age := draw + 18;
      user_email := "user" +:+ pretty userIdCounter +:+ "@example.com" |},
   userIdCounter).

(** [Array.from({ length }, () => createUser())], one draw per record. *)
Fixpoint create_users (draws : list Z) (userIdCounter : Z)
  : list User * Z :=
  match draws with
  | [] => ([], userIdCounter)
  | draw :: rest =>
      let (user, counter) := createUser draw userIdCounter in
      let (others, counter') := create_users rest counter in
      (user :: others, counter')
  end.

(** server.js, the handler of [/api/users], once its delay has passed:
    [page] and [limit] are what [parseInt] makes of the query, [random]
    gives the draws of this request. The result is the array sent and the
    counter after the request. *)
Definition get_users (page limit : option Z) (random : nat -> Z)
  (userIdCounter : Z) : list User * Z :=
  let page := or_else page 1 in
  let limit := or_else limit 50 in
  create_users (List.map random (List.seq 0 (Z.to_nat limit)))
               userIdCounter.

(** [JSON.stringify] of a string: the quoted text, with the escapes of
    the language for the quote, the backslash and the control
    characters. *)
Definition hex_digit (n : nat) : ascii :=
  match n with
  | 0 => "0" | 1 => "1" | 2 => "2" | 3 => "3" | 4 => "4" | 5 => "5"
  | 6 => "6" | 7 => "7" | 8 => "8" | 9 => "9" | 10 => "a" | 11 => "b"
  | 12 => "c" | 13 => "d" | 14 => "e" | _ => "f"
  end%nat%char.

Definition escape (c : ascii) : string :=
  let escaped (e : ascii) := String backslash (String e EmptyString) in
  match c with
  | "008" => escaped "b"
  | "009" => escaped "t"
  | "010" => escaped "n"
  | "012" => escaped "f"
  | "013" => escaped "r"
  | "034" => escaped double_quote
  | "092" => escaped backslash
  | _ =>
      let n := nat_of_ascii c in
      if (n <? 32)%nat then
        String backslash
          (String "u" (String "0" (String "0"
             (String (hex_digit (n / 16)) (String (hex_digit (n mod 16))
                EmptyString)))))
      else String c EmptyString
  end%char.

Fixpoint escape_all (s : string) : string :=
  match s with
  | EmptyString => EmptyString
  | String c s' => escape c +:+ escape_all s'
  end.

Definition quote (s : string) : string :=
  String double_quote (escape_all s +:+ String double_quote EmptyString).

(** [JSON.stringify(user)] for a record of [createUser]: the members in
    the order of the object literal, without white space. *)
Definition JSON_stringify (user : User) : string :=
  "{" +:+ quote "id" +:+ ":" +:+ pretty (user_id user) +:+
  "," +:+ quote "name" +:+ ":" +:+ quote (user_name user) +:+
  "," +:+ quote "age" +:+ ":" +:+ pretty (user_age user) +:+
  "," +:+ quote "email" +:+ ":" +:+ quote (user_email user) +:+ "}".

(** The value [JSON.parse] gives back for the text of a record. *)
Definition json_of_user (user : User) : JsValue :=
  JObj [("id", JNum (user_id user)); ("name", JStr (user_name user));
        ("age", JNum (user_age user)); ("email", JStr (user_email user))].

(** One response of [/api/users-stream]: [count], the records written so
    far (each was written as its JSON text and a line feed), and whether
    the response was ended. *)
Record StreamResponse : Type := mkStream {
  stream_count : Z;
  stream_sent : list User;
  stream_ended : bool
}.

Definition new_stream : StreamResponse :=
  {| stream_count := 0; stream_sent := []; stream_ended := false |}.

(** server.js, lines 35 to 50: one firing of the interval, on the
    response and the counter. Once the interval is cleared it fires no
    more. *)
Definition stream_tick (draw : Z) (s : StreamResponse * Z)
  : StreamResponse * Z :=
  let (res, userIdCounter) := s in
  if stream_ended res then s
  else if stream_count res >=? 50 then
    ({| stream_count := stream_count res; stream_sent := stream_sent res;
        stream_ended := true |}, userIdCounter)
  else
    let (user, counter) := createUser draw userIdCounter in
    ({| stream_count := stream_count res + 1;
        stream_sent := stream_sent res ++ [user];
        stream_ended := false |}, counter).

(** The firings of the interval, one draw each. *)
Definition stream_ticks (draws : list Z) (s : StreamResponse * Z)
  : StreamResponse * Z :=
  fold_left (fun s draw => stream_tick draw s) draws s.

(** What was written to the response: one chunk per record. *)
Definition stream_body (res : StreamResponse) : list string :=
  List.map (fun user => terminated (JSON_stringify user)) (stream_sent res).

(** ** The client against the mock server *)

(** The server handling the requests of one round in the order [order]
    (a request of the client names a page and no limit): each answer with
    the page it is for, and the counter after the round. *)
Fixpoint serve_pages (random : Z -> nat -> Z) (order : list Z)
  (userIdCounter : Z) : list (Z * list User) * Z :=
  match order with
  | [] => ([], userIdCounter)
  | page :: rest =>
      let (sent, counter) :=
        get_users (Some page) None (random page) userIdCounter in
      let (others, counter') := serve_pages random rest counter in
      ((page, sent) :: others, counter')
  end.

(** The array the server sent for [page], if it handled that page. *)
Definition answer_for (answers : list (Z * list User)) (page : Z)
  : option (list User) :=
  option_map snd (List.find (fun a => fst a =? page) answers).

(** The records sent for [page], none if it was not handled. *)
Definition sent_for (answers : list (Z * list User)) (page : Z)
  : list User :=
  match answer_for answers page with
  | Some sent => sent
  | None => []
  end.

(** How the request of [page] settles at the client. *)
Definition settle (answers : list (Z * list User)) (page : Z)
  : Settled (list User) :=
  match answer_for answers page with
  | Some sent => Fulfilled sent
  | None => Rejected (FetchRejected "Failed to fetch")
  end.

(** The environment of a call of [fetchParallelData] whose two rounds are
    answered by the server, the first from the counter [userIdCounter],
    the second after it; [clock] gives the readings of the clocks. *)
Definition served_by (random1 random2 : Z -> nat -> Z)
  (order1 order2 : list Z) (userIdCounter : Z) (clock : FetchEnv)
  : FetchEnv :=
  let round1 := serve_pages random1 order1 userIdCounter in
  let round2 := serve_pages random2 order2 (snd round1) in
  {| now_lookup := now_lookup clock;
     promiseAllStart := promiseAllStart clock;
     fetch_all := settle (fst round1);
     promiseAllEnd := promiseAllEnd clock;
     promiseSettledStart := promiseSettledStart clock;
     fetch_settled := settle (fst round2);
     promiseSettledEnd := promiseSettledEnd clock;
     now_save := now_save clock |}.

(* ================================================================== *)
(** * Part II: properties *)
(* ================================================================== *)

(** ** The expiring cache *)

Lemma getFromCache_absent now key (storage : gmap string CacheEntry) :
  storage !! key = None -> getFromCache now key storage = (None, storage).
Proof. intros H. unfold getFromCache. now rewrite H. Qed.

Lemma getFromCache_saved now t0 key data (storage : gmap string CacheEntry) :
  getFromCache now key (saveToCache t0 key data storage) =
  if now - t0 >? CACHE_EXPIRY
  then (None, delete key (saveToCache t0 key data storage))
  else (Some data, saveToCache t0 key data storage).
Proof.
  unfold getFromCache, saveToCache. rewrite lookup_insert_eq. reflexivity.
Qed.

(** C4, as stated, fails at the boundary: five minutes after the entry was
    stored, [now - storedAt] is not less than the time to live, and the
    lookup still returns the payload and leaves the entry in place. *)
Lemma cache_hit_at_expiry :
  let stored := saveToCache 0 "users" [ann] ∅ in
  ~ (CACHE_EXPIRY - 0 < CACHE_EXPIRY) /\
  getFromCache CACHE_EXPIRY "users" stored = (Some [ann], stored) /\
  snd (getFromCache CACHE_EXPIRY "users" stored) !! "users" =
    Some {| entry_data := [ann]; entry_timestamp := 0 |}.
Proof.
  cbv zeta. rewrite getFromCache_saved. unfold CACHE_EXPIRY. simpl.
  split; [lia|]. split; [reflexivity|].
  unfold saveToCache. apply lookup_insert_eq.
Qed.

(** C4 (amended): after [saveToCache t0 k v], [getFromCache now k] returns
    [v] exactly when [now - t0 <= CACHE_EXPIRY], the time to live being
    five minutes in milliseconds; when [now - t0 > CACHE_EXPIRY] it
    returns a miss and removes the entry; a lookup at the time of the
    save returns [v]. *)
Theorem cache_get_after_put (k : string) (v : list User) (t0 now : Z)
  (storage : gmap string CacheEntry) :
  let stored := saveToCache t0 k v storage in
  getFromCache now k stored =
    (if now - t0 <=? CACHE_EXPIRY then (Some v, stored)
     else (None, delete k stored)) /\
  delete k stored !! k = None /\
  getFromCache t0 k stored = (Some v, stored) /\
  CACHE_EXPIRY = 5 * 60 * 1000.
Proof.
  cbv zeta. rewrite !getFromCache_saved. repeat split.
  - destruct (Z.gtb_spec (now - t0) CACHE_EXPIRY);
      destruct (Z.leb_spec (now - t0) CACHE_EXPIRY); try lia; reflexivity.
  - apply lookup_delete_eq.
  - replace (t0 - t0) with 0 by lia. reflexivity.
Qed.

(** ** Filtering and sorting *)

Section ProcessingFacts.

Variable localeCompare : string -> string -> Z.

Lemma filter_sublist {A} (p : A -> bool) (l : list A) :
  sublist (List.filter p l) l.
Proof.
  induction l as [|x l IH]; simpl.
  - constructor.
  - destruct (p x); now constructor.
Qed.

(** Whatever sublist of [l] satisfies [p] everywhere is inside the
    filtered list: the filter drops nothing it should keep. *)
Lemma filter_greatest {A} (p : A -> bool) (k l : list A) :
  sublist k l -> Forall (fun x => p x = true) k ->
  sublist k (List.filter p l).
Proof.
  induction 1 as [|x k l Hs IH|x k l Hs IH]; intros Hk; simpl.
  - constructor.
  - inversion Hk as [|? ? Hx Hk']; subst. rewrite Hx.
    constructor. now apply IH.
  - destruct (p x); [constructor|]; now apply IH.
Qed.

Lemma sort_insert_perm {A} (cmp : A -> A -> Z) a (l : list A) :
  Permutation (sort_insert cmp a l) (a :: l).
Proof.
  induction l as [|b l IH]; simpl; [reflexivity|].
  destruct (cmp a b >? 0); [|reflexivity].
  rewrite IH. apply perm_swap.
Qed.

Lemma Array_sort_perm {A} (cmp : A -> A -> Z) (l : list A) :
  Permutation (Array_sort cmp l) l.
Proof.
  induction l as [|a l IH]; simpl; [reflexivity|].
  rewrite sort_insert_perm. now constructor.
Qed.

(** C7: the filtering step of both paths keeps exactly the records with
    [age > minAge]: the result is a sublist of the input (same records,
    same relative order), every kept record is strictly older than the
    threshold, no such record is dropped, and a record whose age equals
    the threshold is not kept. *)
Theorem filter_keeps_strictly_older (R : list User) (T : Z)
  (sortBy : string) (st : App) :
  let kept := main_filteredUsers T (setUsers R st) in
  worker_filteredUsers
    {| req_users := R; req_minAge := T; req_sortBy := sortBy |} = kept /\
  sublist kept R /\
  (forall r, In r kept <-> In r R /\ user_age r > T) /\
  (forall k, sublist k R -> Forall (fun r => user_age r > T) k ->
             sublist k kept) /\
  (forall r, user_age r = T -> ~ In r kept).
Proof.
  cbv zeta. unfold worker_filteredUsers, main_filteredUsers. simpl.
  split; [reflexivity|]. split; [apply filter_sublist|].
  assert (Hin : forall r,
             In r (List.filter (fun user => user_age user >? T) R) <->
             In r R /\ user_age r > T).
  { intros r. rewrite filter_In, Z.gtb_ltb, Z.ltb_lt.
    split; intros [Hr Ha]; (split; [exact Hr | lia]). }
  split; [exact Hin|]. split.
  - intros k Hk HT. apply filter_greatest; [exact Hk|].
    eapply Forall_impl; [exact HT|]. simpl. intros r Hr.
    rewrite Z.gtb_ltb, Z.ltb_lt. lia.
  - intros r Hr Hk. apply Hin in Hk. lia.
Qed.

(** C1: the worker and the main thread produce the same output sequence.
    The answer of the worker's handler is the list [processInMainThread]
    stores, the record set after [processWithWorker] (when the worker
    answers) is the record set after [processInMainThread], and that list
    is a rearrangement of the filtered records. *)
Theorem worker_and_main_thread_agree (minAge : Z) (sortBy : string)
  (st : App) (t0 t1 t0' t1' : Z) :
  let inline := processInMainThread localeCompare t0' t1' minAge sortBy st in
  resp_users
    (worker_onmessage localeCompare t0 t1
       {| req_users := users st; req_minAge := minAge;
          req_sortBy := sortBy |}) = users inline /\
  users (processWithWorker localeCompare (WorkerReplies t0 t1)
           minAge sortBy st) = users inline /\
  Permutation (users inline) (main_filteredUsers minAge st).
Proof.
  cbv zeta. split; [reflexivity|]. split.
  - unfold processWithWorker.
    destruct (users st) as [|u l] eqn:Hu; simpl.
    + unfold main_filteredUsers. rewrite ?Hu. reflexivity.
    + unfold main_filteredUsers, worker_filteredUsers. simpl.
      rewrite ?Hu. reflexivity.
  - simpl. apply Array_sort_perm.
Qed.

End ProcessingFacts.

(** ** The merge step *)

Lemma findIndex_bounds {A} (p : A -> bool) (l : list A) :
  -1 <= findIndex p l < Z.of_nat (length l) \/ (l = [] /\ findIndex p l = -1).
Proof.
  induction l as [|x l IH]; simpl; [right; split; reflexivity|left].
  destruct (p x); [lia|].
  destruct (Z.eqb_spec (findIndex p l) (-1)); [lia|].
  destruct IH as [IH|[_ IH]]; lia.
Qed.

Lemma findIndex_existsb {A} (p : A -> bool) (l : list A) :
  existsb p l = negb (findIndex p l =? -1) /\ -1 <= findIndex p l.
Proof.
  induction l as [|x l [IH1 IH2]]; simpl; [split; [reflexivity|lia]|].
  destruct (p x); simpl; [split; [reflexivity|lia]|].
  rewrite IH1.
  destruct (Z.eqb_spec (findIndex p l) (-1)) as [E|E]; simpl.
  - split; [reflexivity|lia].
  - split; [|lia]. destruct (Z.eqb_spec (findIndex p l + 1) (-1)); [lia|].
    reflexivity.
Qed.

Lemma findIndex_app {A} (p : A -> bool) (pre l : list A) :
  findIndex p (pre ++ l) =
  if existsb p pre then findIndex p pre
  else if findIndex p l =? -1 then -1
       else Z.of_nat (length pre) + findIndex p l.
Proof.
  induction pre as [|x pre IH]; simpl.
  - destruct (Z.eqb_spec (findIndex p l) (-1)) as [E|E]; [exact E|].
    reflexivity.
  - destruct (p x); simpl; [reflexivity|]. rewrite IH.
    destruct (findIndex_existsb p l) as [_ Hl].
    destruct (existsb p pre); [reflexivity|].
    destruct (Z.eqb_spec (findIndex p l) (-1)) as [E|E]; simpl;
      [reflexivity|].
    destruct (Z.eqb_spec (Z.of_nat (length pre) + findIndex p l) (-1));
      lia.
Qed.

(** The test of App.js, line 102, at the position just after [pre]: the
    record is kept when no record of [pre] has its id. *)
Lemma keeps_first_occurrence (pre rest : list User) (u : User) :
  (Z.of_nat (length pre) =?
   findIndex (fun x => user_id x =? user_id u) (pre ++ u :: rest)) =
  negb (existsb (fun x => user_id x =? user_id u) pre).
Proof.
  rewrite findIndex_app. simpl. rewrite Z.eqb_refl. simpl.
  destruct (existsb _ pre) eqn:E; simpl.
  - destruct (findIndex_existsb (fun x => user_id x =? user_id u) pre)
      as [H1 H2].
    rewrite E in H1.
    destruct (findIndex_bounds (fun x => user_id x =? user_id u) pre)
      as [H|[-> _]]; [|discriminate].
    apply Z.eqb_neq. lia.
  - apply Z.eqb_eq. lia.
Qed.

Lemma existsb_seen (seen : list Z) (pre : list User) (u : User) :
  (forall z, In z seen <-> In z (List.map user_id pre)) ->
  existsb (Z.eqb (user_id u)) seen =
  existsb (fun x => user_id x =? user_id u) pre.
Proof.
  intros H. apply eq_true_iff_eq. rewrite !existsb_exists. split.
  - intros [z [Hz E]]. apply Z.eqb_eq in E. subst z.
    apply H, in_map_iff in Hz. destruct Hz as [x [E Hx]].
    exists x. split; [exact Hx|]. now apply Z.eqb_eq.
  - intros [x [Hx E]]. apply Z.eqb_eq in E. exists (user_id u).
    split; [|apply Z.eqb_refl]. apply H, in_map_iff. now exists x.
Qed.

Lemma filter_from_first_occurrences (l pre : list User) (seen : list Z) :
  (forall z, In z seen <-> In z (List.map user_id pre)) ->
  filter_from
    (fun user index self =>
       index =? findIndex (fun x => user_id x =? user_id user) self)
    (pre ++ l) (Z.of_nat (length pre)) l =
  first_occurrences seen l.
Proof.
  revert pre seen. induction l as [|u l IH]; intros pre seen H; simpl;
    [reflexivity|].
  rewrite keeps_first_occurrence, (existsb_seen seen pre u H).
  assert (Hlen : Z.of_nat (length pre) + 1 = Z.of_nat (length (pre ++ [u])))
    by (rewrite length_app; simpl; lia).
  assert (Hself : pre ++ u :: l = (pre ++ [u]) ++ l)
    by (rewrite <- app_assoc; reflexivity).
  destruct (existsb _ pre) eqn:E; simpl; rewrite Hlen, Hself.
  - apply IH. intros z. rewrite H, map_app, in_app_iff. simpl.
    split; [tauto|]. intros [Hz|[Hz|[]]]; [exact Hz|]. subst z.
    apply existsb_exists in E. destruct E as [x [Hx E]].
    apply Z.eqb_eq in E. rewrite <- E. now apply in_map.
  - f_equal. apply IH. intros z. rewrite map_app, in_app_iff. simpl.
    rewrite H. tauto.
Qed.

(** The merge of the program is the merge of the specification. *)
Lemma combinedUsers_dedupe (a b : list User) :
  combinedUsers a b = dedupe_by_id (a ++ b).
Proof.
  unfold combinedUsers, filter_indexed, dedupe_by_id.
  apply (filter_from_first_occurrences (a ++ b) [] []).
  intros z. simpl. tauto.
Qed.

Lemma first_occurrences_seen_ext (l : list User) (s1 s2 : list Z) :
  (forall z, In z s1 <-> In z s2) ->
  first_occurrences s1 l = first_occurrences s2 l.
Proof.
  revert s1 s2. induction l as [|u l IH]; intros s1 s2 H; simpl;
    [reflexivity|].
  assert (E : existsb (Z.eqb (user_id u)) s1 =
              existsb (Z.eqb (user_id u)) s2).
  { apply eq_true_iff_eq. rewrite !existsb_exists.
    split; intros [z [Hz Hq]]; exists z; (split; [apply H, Hz|exact Hq]). }
  rewrite E. destruct (existsb _ s2); [now apply IH|].
  f_equal. apply IH. intros z. simpl. rewrite H. tauto.
Qed.

Lemma first_occurrences_app (a b : list User) (seen : list Z) :
  first_occurrences seen (a ++ b) =
  first_occurrences seen a ++
  first_occurrences (List.map user_id a ++ seen) b.
Proof.
  revert seen. induction a as [|u a IH]; intros seen; simpl; [reflexivity|].
  destruct (existsb _ seen) eqn:E.
  - rewrite IH. f_equal. apply first_occurrences_seen_ext.
    intros z. simpl. split; [tauto|]. intros [Hz|Hz]; [|exact Hz].
    subst z. apply in_app_iff. right.
    apply existsb_exists in E. destruct E as [z [Hz E]].
    apply Z.eqb_eq in E. now subst z.
  - simpl. f_equal. rewrite IH. f_equal. apply first_occurrences_seen_ext.
    intros z. simpl. rewrite !in_app_iff. simpl. tauto.
Qed.

Lemma first_occurrences_all_seen (l : list User) (seen : list Z) :
  (forall u, In u l -> In (user_id u) seen) ->
  first_occurrences seen l = [].
Proof.
  induction l as [|u l IH]; intros H; simpl; [reflexivity|].
  assert (E : existsb (Z.eqb (user_id u)) seen = true).
  { apply existsb_exists. exists (user_id u).
    split; [apply H; now left|apply Z.eqb_refl]. }
  rewrite E. apply IH. intros v Hv. apply H. now right.
Qed.

Lemma first_occurrences_distinct (l : list User) (seen : list Z) :
  NoDup (List.map user_id l) ->
  (forall u, In u l -> ~ In (user_id u) seen) ->
  first_occurrences seen l = l.
Proof.
  revert seen. induction l as [|u l IH]; intros seen Hnd H; simpl;
    [reflexivity|].
  simpl in Hnd. apply NoDup_cons in Hnd. destruct Hnd as [Hu Hnd].
  assert (E : existsb (Z.eqb (user_id u)) seen = false).
  { apply not_true_is_false. rewrite existsb_exists.
    intros [z [Hz Hq]]. apply Z.eqb_eq in Hq. subst z.
    apply (H u); [now left|exact Hz]. }
  rewrite E. f_equal. apply IH; [exact Hnd|].
  intros v Hv [Hq|Hq].
  - apply Hu. rewrite Hq. apply list_elem_of_In. now apply in_map.
  - apply (H v); [now right|exact Hq].
Qed.

Lemma first_occurrences_sublist (l : list User) (seen : list Z) :
  sublist (first_occurrences seen l) l.
Proof.
  revert seen. induction l as [|u l IH]; intros seen; simpl.
  - constructor.
  - destruct (existsb _ seen); constructor; apply IH.
Qed.

Lemma first_occurrences_fresh (l : list User) (seen : list Z) (u : User) :
  In u (first_occurrences seen l) -> ~ In (user_id u) seen.
Proof.
  revert seen. induction l as [|v l IH]; intros seen; simpl; [tauto|].
  destruct (existsb _ seen) eqn:E; [apply IH|].
  intros [->|Hu].
  - intros Hin. apply not_true_iff_false in E. apply E.
    apply existsb_exists. exists (user_id u). split; [exact Hin|].
    apply Z.eqb_refl.
  - intros Hin. apply (IH _ Hu). now right.
Qed.

Lemma first_occurrences_NoDup (l : list User) (seen : list Z) :
  NoDup (List.map user_id (first_occurrences seen l)).
Proof.
  revert seen. induction l as [|u l IH]; intros seen; simpl.
  - constructor.
  - destruct (existsb _ seen); [apply IH|]. simpl. constructor; [|apply IH].
    rewrite list_elem_of_In, in_map_iff. intros [v [Hq Hv]].
    apply first_occurrences_fresh in Hv. apply Hv. left. now rewrite Hq.
Qed.

Lemma first_occurrences_covers (l : list User) (seen : list Z) (u : User) :
  In u l -> ~ In (user_id u) seen ->
  exists v, In v (first_occurrences seen l) /\ user_id v = user_id u.
Proof.
  revert seen. induction l as [|w l IH]; intros seen; simpl; [tauto|].
  intros [->|Hu] Hs.
  - assert (E : existsb (Z.eqb (user_id u)) seen = false).
    { apply not_true_is_false. rewrite existsb_exists.
      intros [z [Hz Hq]]. apply Z.eqb_eq in Hq. now subst z. }
    rewrite E. exists u. split; [now left|reflexivity].
  - destruct (existsb _ seen) eqn:E; [now apply IH|].
    destruct (Z.eq_dec (user_id w) (user_id u)) as [Q|Q].
    + exists w. split; [now left|exact Q].
    + destruct (IH (user_id w :: seen) Hu) as [v [Hv Hq]].
      * intros [H|H]; [now apply Q|now apply Hs].
      * exists v. split; [now right|exact Hq].
Qed.

(** C8, as stated, fails for a list in which two records share an id:
    merging it with itself keeps one of the two. *)
Lemma merge_with_itself_drops_shared_id :
  combinedUsers [ann; ann_again] [ann; ann_again] = [ann] /\
  combinedUsers [ann; ann_again] [ann; ann_again] <> [ann; ann_again].
Proof. split; [reflexivity|discriminate]. Qed.

(** C8 (amended): for a record list [S] whose ids are pairwise distinct,
    merging [S] with itself gives [S] back. For all lists, the merge
    step is the deduplication of the concatenation, fail-fast records
    first: it keeps the first record of each id, in order (the result is
    a sublist of the concatenation, its ids are pairwise distinct and
    every id of the input is still there), merging a list with itself is
    deduplicating it, and deduplicating twice changes nothing. *)
Theorem merge_keeps_first_occurrences (S : list User)
  (Hdistinct : NoDup (List.map user_id S)) :
  combinedUsers S S = S /\
  (forall a b : list User,
     combinedUsers a b = dedupe_by_id (a ++ b) /\
     sublist (combinedUsers a b) (a ++ b) /\
     NoDup (List.map user_id (combinedUsers a b)) /\
     (forall u, In u (a ++ b) ->
        exists v, In v (combinedUsers a b) /\ user_id v = user_id u)) /\
  (forall l : list User,
     combinedUsers l l = dedupe_by_id l /\
     dedupe_by_id (dedupe_by_id l) = dedupe_by_id l).
Proof.
  assert (Hself : forall l, dedupe_by_id (l ++ l) = dedupe_by_id l).
  { intros l. unfold dedupe_by_id. rewrite first_occurrences_app.
    rewrite (first_occurrences_all_seen l (List.map user_id l ++ [])).
    - apply app_nil_r.
    - intros u Hu. apply in_app_iff. left. now apply in_map. }
  split; [|split].
  - rewrite combinedUsers_dedupe, Hself.
    apply first_occurrences_distinct; [exact Hdistinct|].
    intros u _ [].
  - intros a b. rewrite combinedUsers_dedupe. split; [reflexivity|].
    split; [apply first_occurrences_sublist|].
    split; [apply first_occurrences_NoDup|].
    intros u Hu. apply first_occurrences_covers; [exact Hu|]. intros [].
  - intros l. rewrite combinedUsers_dedupe, Hself. split; [reflexivity|].
    apply first_occurrences_distinct; [apply first_occurrences_NoDup|].
    intros u _ [].
Qed.

Lemma merge_keeps_first_occurrences_witness :
  NoDup (List.map user_id [ann; bob]) /\
  combinedUsers [ann; bob] [ann; bob] = [ann; bob].
Proof.
  assert (H : NoDup (List.map user_id [ann; bob])).
  { simpl. repeat constructor; rewrite list_elem_of_In; simpl; intuition lia. }
  split; [exact H|].
  exact (proj1 (merge_keeps_first_occurrences [ann; bob] H)).
Defined.

(** ** The parallel fetch *)

Lemma Promise_all_rejects {A} (promises : list (Settled A)) reason :
  In (Rejected reason) promises ->
  exists error, Promise_all promises = Rejected error.
Proof.
  induction promises as [|p ps IH]; simpl; [tauto|].
  intros [->|H]; [now exists reason|].
  destruct p as [v|r]; [|now exists r].
  destruct (IH H) as [error ->]. now exists error.
Qed.

Lemma Promise_all_fulfilled {A} (promises : list (Settled A)) values :
  Promise_all promises = Fulfilled values <->
  promises = List.map Fulfilled values.
Proof.
  revert values. induction promises as [|p ps IH]; intros values; simpl.
  - split.
    + intros H. injection H as <-. reflexivity.
    + destruct values; [reflexivity|discriminate].
  - destruct p as [v|r].
    + destruct (Promise_all ps) as [vs|r] eqn:E.
      * split.
        -- intros H. injection H as <-. simpl. f_equal. now apply IH.
        -- destruct values as [|w ws]; [discriminate|]. simpl.
           intros H. injection H as -> H. apply IH in H.
           now injection H as ->.
      * split; [discriminate|].
        destruct values as [|w ws]; [discriminate|]. simpl.
        intros H. injection H as -> H. apply IH in H. discriminate.
    + split; [discriminate|]. destruct values; discriminate.
Qed.

Lemma fetchParallelData_rejected env pagesToFetch st error :
  fst (getFromCache (now_lookup env) "users" (localStorage st)) = None ->
  Promise_all (List.map (fetch_all env) (page_numbers pagesToFetch)) =
    Rejected error ->
  fetchParallelData env pagesToFetch st =
  setLoading false
    (console_error (ErrorFetchingData error)
       (set_localStorage
          (snd (getFromCache (now_lookup env) "users" (localStorage st)))
          (setLoading true st))).
Proof.
  intros Hmiss Hrej. unfold fetchParallelData. simpl.
  destruct (getFromCache _ _ _) as [cached storage]. simpl in *.
  subst cached. rewrite Hrej. reflexivity.
Qed.

Lemma fetchParallelData_fulfilled env pagesToFetch st allResponses :
  fst (getFromCache (now_lookup env) "users" (localStorage st)) = None ->
  Promise_all (List.map (fetch_all env) (page_numbers pagesToFetch)) =
    Fulfilled allResponses ->
  users (fetchParallelData env pagesToFetch st) =
  combinedUsers (List.concat allResponses)
    (successfulData
       (Promise_allSettled
          (List.map (fetch_settled env) (page_numbers pagesToFetch)))).
Proof.
  intros Hmiss Hall. unfold fetchParallelData. simpl.
  destruct (getFromCache _ _ _) as [cached storage]. simpl in *.
  subst cached. rewrite Hall. reflexivity.
Qed.

(** C3, as stated, fails: with one of two page requests rejected, the
    fail-fast phase yields an error, and although the partial-success
    step would yield the records of page 1 from the same outcomes, the
    function never reaches it; the record set stays empty and nothing is
    cached. *)
Lemma failed_fetch_keeps_no_page :
  let pages := page_numbers 2 in
  let after := fetchParallelData one_page_fails 2 (initial_app ∅) in
  Promise_all (List.map (fetch_all one_page_fails) pages) =
    Rejected (FetchRejected "Failed to fetch") /\
  successfulData
    (Promise_allSettled (List.map (fetch_settled one_page_fails) pages)) =
    [ann; bob] /\
  users after = [] /\
  users after <> [ann; bob] /\
  localStorage after !! "users" = None /\
  console after = [ErrorFetchingData (FetchRejected "Failed to fetch")].
Proof.
  cbv zeta. split; [reflexivity|]. split; [reflexivity|].
  rewrite (fetchParallelData_rejected one_page_fails 2 (initial_app ∅)
             (FetchRejected "Failed to fetch"));
    [|reflexivity|reflexivity].
  simpl. split; [reflexivity|]. split; [discriminate|].
  split; [apply lookup_empty|reflexivity].
Qed.

(** C3 (amended): when a page request of the fail-fast phase is rejected
    (the cache holding no valid entry), the phase yields an error: the
    error is logged, loading is cleared, and the partial-success phase is
    not run, so the record set, the data source, the metrics and the cache
    are what they were, whatever the second round of requests would have
    given. The partial-success step itself always has a result: over two
    outcomes of which one is a rejection it yields exactly the records of
    the fulfilled page; it runs, and feeds the merge, when the fail-fast
    phase is fulfilled. *)
Theorem fail_fast_error_skips_partial_success (env : FetchEnv)
  (pagesToFetch : Z) (st : App) (reason : JsError)
  (Hmiss :
     fst (getFromCache (now_lookup env) "users" (localStorage st)) = None)
  (Hfail :
     In (Rejected reason)
        (List.map (fetch_all env) (page_numbers pagesToFetch))) :
  let after := fetchParallelData env pagesToFetch st in
  (exists error,
     Promise_all (List.map (fetch_all env) (page_numbers pagesToFetch)) =
       Rejected error /\
     console after = console st ++ [ErrorFetchingData error]) /\
  users after = users st /\
  dataSource after = dataSource st /\
  metrics after = metrics st /\
  localStorage after =
    snd (getFromCache (now_lookup env) "users" (localStorage st)) /\
  loading after = false /\
  (forall f,
     fetchParallelData (with_fetch_settled f env) pagesToFetch st = after) /\
  (forall records error,
     successfulData (Promise_allSettled [Fulfilled records; Rejected error])
       = records /\
     successfulData (Promise_allSettled [Rejected error; Fulfilled records])
       = records) /\
  (forall env' n st' allResponses,
     fst (getFromCache (now_lookup env') "users" (localStorage st')) = None ->
     Promise_all (List.map (fetch_all env') (page_numbers n)) =
       Fulfilled allResponses ->
     users (fetchParallelData env' n st') =
     combinedUsers (List.concat allResponses)
       (successfulData
          (Promise_allSettled
             (List.map (fetch_settled env') (page_numbers n))))).
Proof.
  cbv zeta. destruct (Promise_all_rejects _ _ Hfail) as [error Hrej].
  rewrite (fetchParallelData_rejected env pagesToFetch st error Hmiss Hrej).
  split; [exists error; split; [exact Hrej|reflexivity]|].
  do 5 (split; [reflexivity|]).
  split; [|split].
  - intros f.
    apply (fetchParallelData_rejected (with_fetch_settled f env)
             pagesToFetch st error Hmiss Hrej).
  - intros records error'. unfold successfulData, Promise_allSettled. simpl.
    now rewrite app_nil_r.
  - intros env' n st' allResponses. apply fetchParallelData_fulfilled.
Qed.

Lemma fail_fast_error_skips_partial_success_witness :
  let after := fetchParallelData one_page_fails 2 (initial_app ∅) in
  users after = [] /\ loading after = false.
Proof.
  assert (Hmiss :
    fst (getFromCache (now_lookup one_page_fails) "users"
           (localStorage (initial_app ∅))) = None) by reflexivity.
  assert (Hfail :
    In (Rejected (FetchRejected "Failed to fetch"))
       (List.map (fetch_all one_page_fails) (page_numbers 2)))
    by (simpl; right; left; reflexivity).
  pose proof (fail_fast_error_skips_partial_success one_page_fails 2
                (initial_app ∅) _ Hmiss Hfail) as H.
  cbv zeta in *. destruct H as (_ & Hu & _ & _ & _ & Hl & _).
  split; [exact Hu|exact Hl].
Defined.

(** ** Lines and chunks *)

Lemma append_cons c (s t : string) :
  String c s +:+ t = String c (s +:+ t).
Proof. reflexivity. Qed.

Lemma append_empty_r (s : string) : s +:+ EmptyString = s.
Proof.
  induction s as [|c s IH]; [reflexivity|].
  rewrite append_cons, IH. reflexivity.
Qed.

Lemma append_associative (s t u : string) :
  (s +:+ t) +:+ u = s +:+ (t +:+ u).
Proof.
  induction s as [|c s IH]; [reflexivity|].
  rewrite !append_cons, IH. reflexivity.
Qed.

Lemma split_newline_cons (s : string) :
  exists piece pieces, split_newline s = piece :: pieces.
Proof.
  induction s as [|c s [p [ps IH]]]; simpl; [eauto|].
  destruct (Ascii.eqb c newline); [eauto|]. rewrite IH. eauto.
Qed.

(** Splitting a text in two parts: the lines closed in the first part,
    then the split of what the first part left open followed by the
    second part. *)
Lemma split_newline_app (a b : string) :
  split_newline (a +:+ b) =
  complete_lines a ++ split_newline (trailing_segment a +:+ b).
Proof.
  unfold complete_lines, trailing_segment, slice_but_last, last_piece.
  induction a as [|c a IH]; [reflexivity|].
  rewrite append_cons. simpl split_newline.
  destruct (split_newline_cons a) as [p [ps Ha]].
  destruct (Ascii.eqb c newline) eqn:Ec.
  - rewrite IH, Ha. destruct ps; reflexivity.
  - rewrite IH, Ha. destruct ps as [|q ps].
    + simpl. rewrite Ec. reflexivity.
    + reflexivity.
Qed.

Lemma complete_lines_app (a b : string) :
  complete_lines (a +:+ b) =
  complete_lines a ++ complete_lines (trailing_segment a +:+ b).
Proof.
  unfold complete_lines at 1. rewrite split_newline_app.
  destruct (split_newline_cons (trailing_segment a +:+ b)) as [p [ps H]].
  unfold slice_but_last. rewrite removelast_app; [reflexivity|].
  rewrite H. discriminate.
Qed.

Lemma last_of_app {A} (l1 l2 : list A) (d : A) :
  l2 <> [] -> List.last (l1 ++ l2) d = List.last l2 d.
Proof.
  intros H. induction l1 as [|x l1 IH]; [reflexivity|].
  simpl. rewrite IH. destruct (l1 ++ l2) eqn:E; [|reflexivity].
  apply app_eq_nil in E. destruct E as [_ E]. contradiction.
Qed.

Lemma trailing_segment_app (a b : string) :
  trailing_segment (a +:+ b) = trailing_segment (trailing_segment a +:+ b).
Proof.
  unfold trailing_segment at 1. rewrite split_newline_app.
  destruct (split_newline_cons (trailing_segment a +:+ b)) as [p [ps H]].
  unfold last_piece. rewrite last_of_app; [reflexivity|].
  rewrite H. discriminate.
Qed.

Lemma split_newline_one_piece (s : string) :
  has_newline s = false -> split_newline s = [s].
Proof.
  induction s as [|c s IH]; simpl; [reflexivity|].
  destruct (Ascii.eqb c newline); simpl; [discriminate|].
  intros H. rewrite (IH H). reflexivity.
Qed.

Lemma complete_lines_open (s : string) :
  has_newline s = false -> complete_lines s = [].
Proof.
  intros H. unfold complete_lines. now rewrite split_newline_one_piece.
Qed.

Lemma trailing_segment_open (s : string) :
  has_newline s = false -> trailing_segment s = s.
Proof.
  intros H. unfold trailing_segment. now rewrite split_newline_one_piece.
Qed.

Lemma trailing_segment_has_no_newline (s : string) :
  has_newline (trailing_segment s) = false.
Proof.
  unfold trailing_segment, last_piece.
  induction s as [|c s IH]; simpl; [reflexivity|].
  destruct (split_newline_cons s) as [p [ps H]].
  destruct (Ascii.eqb c newline) eqn:Ec.
  - rewrite H in *. exact IH.
  - rewrite H in *. destruct ps as [|q ps]; [|exact IH].
    simpl in *. rewrite Ec, IH. reflexivity.
Qed.

(** ** The two loops of the ingestor *)

Lemma geb_true (a b : Z) : (a >=? b) = true <-> b <= a.
Proof. rewrite Z.geb_leb. apply Z.leb_le. Qed.

Lemma geb_false (a b : Z) : (a >=? b) = false <-> a < b.
Proof. rewrite Z.geb_leb. apply Z.leb_gt. Qed.

Lemma append_unless_exists_length (user : JsValue) (prev : list JsValue) :
  (length (append_unless_exists user prev) <= S (length prev))%nat.
Proof.
  unfold append_unless_exists. destruct (existsb _ prev); [lia|].
  rewrite length_app. simpl. lia.
Qed.

Section StreamingFacts.

Variable JSON_parse : string -> option JsValue.

Lemma for_lines_at_limit N lines (s : App * Z) :
  N <= snd s -> for_lines JSON_parse N lines s = s.
Proof.
  intros H. destruct lines as [|line rest]; simpl; [reflexivity|].
  apply geb_true in H. now rewrite H.
Qed.

Lemma for_lines_app N (l1 l2 : list string) (s : App * Z) :
  for_lines JSON_parse N (l1 ++ l2) s =
  for_lines JSON_parse N l2 (for_lines JSON_parse N l1 s).
Proof.
  revert s. induction l1 as [|line l1 IH]; intros s; simpl; [reflexivity|].
  destruct (snd s >=? N) eqn:E; [|apply IH].
  symmetry. apply for_lines_at_limit. now apply geb_true.
Qed.

Lemma step_line_count line (s : App * Z) :
  snd s <= snd (step_line JSON_parse line s) <= snd s + 1.
Proof.
  destruct s as [st n]. unfold step_line.
  destruct (try_line JSON_parse line); simpl; lia.
Qed.

Lemma for_lines_count N lines (s : App * Z) :
  snd s <= snd (for_lines JSON_parse N lines s) /\
  (snd s <= N -> snd (for_lines JSON_parse N lines s) <= N).
Proof.
  revert s. induction lines as [|line rest IH]; intros s; simpl; [lia|].
  destruct (snd s >=? N) eqn:E; [lia|]. apply geb_false in E.
  pose proof (step_line_count line s) as Hs.
  destruct (IH (step_line JSON_parse line s)) as [H1 H2]. lia.
Qed.

Lemma step_line_counted line (s : App * Z) :
  counted s -> counted (step_line JSON_parse line s).
Proof.
  destruct s as [st n]. unfold counted, step_line.
  destruct (try_line JSON_parse line) as [|user|error]; simpl; [tauto| |tauto].
  pose proof (append_unless_exists_length user (streamUsers st)). lia.
Qed.

Lemma for_lines_counted N lines (s : App * Z) :
  counted s -> counted (for_lines JSON_parse N lines s).
Proof.
  revert s. induction lines as [|line rest IH]; intros s H; simpl;
    [exact H|].
  destruct (snd s >=? N); [exact H|]. apply IH. now apply step_line_counted.
Qed.

Lemma read_loop_eq N chunks nreads buffer (s : App * Z) :
  read_loop JSON_parse N chunks nreads buffer s =
  if snd s <? N then
    match chunks with
    | [] => (s, buffer, ([], S nreads))
    | value :: rest =>
        read_loop JSON_parse N rest (S nreads)
          (trailing_segment (buffer +:+ value))
          (for_lines JSON_parse N (complete_lines (buffer +:+ value)) s)
    end
  else (s, buffer, (chunks, nreads)).
Proof. destruct chunks; reflexivity. Qed.

Lemma read_loop_at_limit N chunks nreads buffer (s : App * Z) :
  N <= snd s ->
  read_loop JSON_parse N chunks nreads buffer s =
  (s, buffer, (chunks, nreads)).
Proof.
  intros H. rewrite read_loop_eq.
  destruct (Z.ltb_spec (snd s) N); [lia|reflexivity].
Qed.

(** The state and the count the [while] loop ends with are those of a
    single pass over the complete lines of the whole text: the buffer
    carries an open line from one chunk to the next. *)
Lemma read_loop_lines N chunks nreads buffer (s : App * Z) :
  has_newline buffer = false ->
  fst (fst (read_loop JSON_parse N chunks nreads buffer s)) =
  for_lines JSON_parse N
    (complete_lines (buffer +:+ concat_chunks chunks)) s.
Proof.
  revert nreads buffer s.
  induction chunks as [|value rest IH]; intros nreads buffer s Hb;
    rewrite read_loop_eq; simpl concat_chunks.
  - rewrite append_empty_r, (complete_lines_open _ Hb). simpl.
    destruct (snd s <? N); reflexivity.
  - destruct (Z.ltb_spec (snd s) N) as [Hlt|Hge].
    + rewrite IH by apply trailing_segment_has_no_newline.
      rewrite <- append_associative, (complete_lines_app (buffer +:+ value)).
      now rewrite for_lines_app.
    + simpl. now rewrite for_lines_at_limit.
Qed.

(** When the loop did not stop at the limit, its buffer holds the open
    segment at the end of the text. *)
Lemma read_loop_buffer N chunks nreads buffer (s : App * Z) :
  has_newline buffer = false ->
  snd (fst (fst (read_loop JSON_parse N chunks nreads buffer s))) < N ->
  snd (fst (read_loop JSON_parse N chunks nreads buffer s)) =
  trailing_segment (buffer +:+ concat_chunks chunks).
Proof.
  revert nreads buffer s.
  induction chunks as [|value rest IH]; intros nreads buffer s Hb;
    rewrite read_loop_eq; simpl concat_chunks.
  - rewrite append_empty_r, (trailing_segment_open _ Hb).
    destruct (snd s <? N); reflexivity.
  - destruct (Z.ltb_spec (snd s) N) as [Hlt|Hge]; [|simpl; lia].
    intros H. rewrite IH; [|apply trailing_segment_has_no_newline|exact H].
    rewrite <- append_associative.
    now rewrite (trailing_segment_app (buffer +:+ value)).
Qed.

(** Once the count has reached the limit on a prefix of the chunks, what
    follows the prefix is not read: it is left with the reader, and
    neither the state, nor the buffer, nor the number of reads depends
    on it. *)
Lemma read_loop_prefix N (pre post : list string) nreads buffer
  (s : App * Z) :
  N <= snd (fst (fst (read_loop JSON_parse N pre nreads buffer s))) ->
  read_loop JSON_parse N (pre ++ post) nreads buffer s =
  (fst (read_loop JSON_parse N pre nreads buffer s),
   (fst (snd (read_loop JSON_parse N pre nreads buffer s)) ++ post,
    snd (snd (read_loop JSON_parse N pre nreads buffer s)))).
Proof.
  revert nreads buffer s.
  induction pre as [|value rest IH]; intros nreads buffer s.
  - rewrite (read_loop_eq N []). simpl app.
    destruct (Z.ltb_spec (snd s) N) as [Hlt|Hge]; simpl; [lia|].
    intros _. now apply read_loop_at_limit.
  - rewrite (read_loop_eq N (value :: rest)).
    rewrite (read_loop_eq N ((value :: rest) ++ post)). simpl app.
    destruct (Z.ltb_spec (snd s) N) as [Hlt|Hge]; [apply IH|].
    reflexivity.
Qed.

(** The reads of the loop: one per chunk it took, and one more when it
    was told that the stream is done, which happens below the limit
    only. *)
Lemma read_loop_reads N chunks nreads buffer (s : App * Z) :
  let r := read_loop JSON_parse N chunks nreads buffer s in
  exists taken,
    chunks = taken ++ fst (snd r) /\
    (snd (snd r) = nreads + length taken \/
     (fst (snd r) = [] /\ snd (snd r) = S (nreads + length taken) /\
      (snd (fst (fst r)) < N)%Z))%nat.
Proof.
  cbv zeta. revert nreads buffer s.
  induction chunks as [|value chunks IH]; intros nreads buffer s;
    rewrite read_loop_eq.
  - destruct (Z.ltb_spec (snd s) N); exists []; simpl;
      (split; [reflexivity|]).
    + right. split; [reflexivity|]. split; [lia|assumption].
    + left. lia.
  - destruct (Z.ltb_spec (snd s) N).
    + destruct (IH (S nreads) (trailing_segment (buffer +:+ value))
                   (for_lines JSON_parse N
                      (complete_lines (buffer +:+ value)) s))
        as [taken [Hc Hn]].
      exists (value :: taken). split; [simpl; now rewrite <- Hc|].
      simpl. destruct Hn as [Hn|[Hr [Hn Hlt]]];
        [left; lia|right; split; [exact Hr|split; [lia|exact Hlt]]].
    + exists []. split; [reflexivity|]. left. simpl. lia.
Qed.

(** What [streamData] returns on a response that is ok and has a body. *)
Lemma streamData_ok chunks N st :
  streamData JSON_parse (ok_response chunks) N st =
  let r :=
    read_loop JSON_parse N chunks 0 EmptyString
      (setStreamUsers (fun _ => []) st, 0) in
  {| run_app := fst (fst (fst r));
     run_receivedCount := snd (fst (fst r));
     run_buffer := snd (fst r);
     run_reader :=
       Some {| pending := fst (snd r); reads := snd (snd r);
               locked := true; cancelled := false |} |}.
Proof.
  unfold streamData, ok_response. simpl.
  destruct (read_loop _ _ _ _ _ _) as [[s b] [rest n]]. reflexivity.
Qed.

Lemma streamData_lines chunks N st :
  let run := streamData JSON_parse (ok_response chunks) N st in
  (run_app run, run_receivedCount run) =
  for_lines JSON_parse N (complete_lines (concat_chunks chunks))
    (setStreamUsers (fun _ => []) st, 0).
Proof.
  cbv zeta. rewrite streamData_ok. cbv zeta. simpl run_app.
  simpl run_receivedCount. rewrite <- surjective_pairing.
  now rewrite read_loop_lines.
Qed.

End StreamingFacts.

(** ** The streaming ingestor *)

Lemma concat_chunks_app (a b : list string) :
  concat_chunks (a ++ b) = concat_chunks a +:+ concat_chunks b.
Proof.
  induction a as [|c a IH]; simpl; [reflexivity|].
  rewrite IH. now rewrite append_associative.
Qed.

Lemma has_newline_app (a b : string) :
  has_newline (a +:+ b) = has_newline a || has_newline b.
Proof.
  induction a as [|c a IH]; [reflexivity|].
  rewrite append_cons. simpl. rewrite IH. apply orb_assoc.
Qed.

Lemma split_newline_terminated (s : string) :
  has_newline s = false ->
  split_newline (terminated s) = [s; EmptyString].
Proof.
  unfold terminated. induction s as [|c s IH]; [reflexivity|].
  rewrite append_cons. simpl.
  destruct (Ascii.eqb c newline); simpl; [discriminate|].
  intros H. now rewrite (IH H).
Qed.

Lemma complete_lines_terminated (s : string) :
  has_newline s = false -> complete_lines (terminated s) = [s].
Proof.
  intros H. unfold complete_lines. now rewrite split_newline_terminated.
Qed.

Section IngestorClaims.

Variable JSON_parse : string -> option JsValue.

(** C2 (amended): with a limit [N >= 1] the ingestor counts at most [N]
    records and stores no more than it counted. Once the count has
    reached [N] on a prefix of the chunks, it reads nothing of what
    follows: state, count, buffer and number of reads are those of the
    prefix alone, and the chunks that follow are left with the reader.
    The reader is not cancelled and its lock is not released; the run
    makes at most one read per chunk, and one more at the end of the
    stream. *)
Theorem stream_stops_reading_at_limit (N : Z) (pre post : list string)
  (st : App) (HN : 1 <= N) :
  let run := streamData JSON_parse (ok_response (pre ++ post)) N st in
  let run_pre := streamData JSON_parse (ok_response pre) N st in
  (Z.of_nat (length (streamUsers (run_app run))) <= run_receivedCount run /\
   run_receivedCount run <= N) /\
  (run_receivedCount run_pre = N ->
   run_app run = run_app run_pre /\
   run_receivedCount run = N /\
   run_buffer run = run_buffer run_pre /\
   exists r,
     run_reader run_pre = Some r /\
     (reads r <= length pre)%nat /\
     run_reader run =
       Some {| pending := pending r ++ post; reads := reads r;
               locked := true; cancelled := false |}) /\
  (exists r,
     run_reader run = Some r /\
     locked r = true /\ cancelled r = false /\
     (reads r <= S (length (pre ++ post)))%nat).
Proof.
  cbv zeta. split; [|split].
  - pose proof (streamData_lines JSON_parse (pre ++ post) N st) as H.
    cbv zeta in H.
    set (s0 := (setStreamUsers (fun _ => []) st, 0)) in H.
    pose proof (for_lines_counted JSON_parse N
                  (complete_lines (concat_chunks (pre ++ post))) s0) as Hc.
    pose proof (for_lines_count JSON_parse N
                  (complete_lines (concat_chunks (pre ++ post))) s0) as Hn.
    rewrite <- H in Hc, Hn. unfold counted in Hc. simpl in Hc, Hn.
    split; [apply Hc; lia|apply Hn; lia].
  - rewrite !streamData_ok. cbv zeta. simpl. intros Hfull.
    set (s0 := (setStreamUsers (fun _ => []) st, 0)) in *.
    rewrite (read_loop_prefix JSON_parse N pre post 0 EmptyString s0)
      by lia.
    simpl. split; [reflexivity|]. split; [exact Hfull|].
    split; [reflexivity|].
    eexists. split; [reflexivity|]. simpl. split; [|reflexivity].
    destruct (read_loop_reads JSON_parse N pre 0 EmptyString s0)
      as [taken [Hc Hr]].
    assert (Hlen : (length taken <= length pre)%nat).
    { apply (f_equal (@length string)) in Hc.
      rewrite length_app in Hc. lia. }
    destruct Hr as [Hr|[_ [_ Hlt]]]; lia.
  - rewrite streamData_ok. cbv zeta. simpl. eexists.
    split; [reflexivity|]. simpl. split; [reflexivity|].
    split; [reflexivity|].
    set (s0 := (setStreamUsers (fun _ => []) st, 0)).
    destruct (read_loop_reads JSON_parse N (pre ++ post) 0 EmptyString s0)
      as [taken [Hc Hr]].
    assert (Hlen : (length taken <= length (pre ++ post))%nat).
    { apply (f_equal (@length string)) in Hc.
      rewrite (length_app taken) in Hc. lia. }
    destruct Hr as [Hr|[_ [Hr _]]]; lia.
Qed.

(** C5 (amended): the segment after the last line feed is kept in the
    buffer from one read to the next and is parsed once its line feed has
    arrived: the run is a single pass over the complete lines of the
    whole text, however the text is cut into chunks, and a chunk that
    closes the open segment makes the ingestor treat the segment and
    that chunk as one line. When the stream ends instead, the open
    segment is not parsed: a last chunk without a line feed changes
    neither the state nor the count, and stays in the buffer. *)
Theorem open_segment_waits_for_line_feed (N : Z) (chunks : list string)
  (tail : string) (st : App) (Htail : has_newline tail = false) :
  let text := concat_chunks chunks in
  let run := streamData JSON_parse (ok_response chunks) N st in
  let run_open := streamData JSON_parse (ok_response (chunks ++ [tail])) N st in
  let run_closed :=
    streamData JSON_parse (ok_response (chunks ++ [terminated tail])) N st in
  (run_app run, run_receivedCount run) =
    for_lines JSON_parse N (complete_lines text)
      (setStreamUsers (fun _ => []) st, 0) /\
  (run_receivedCount run < N -> run_buffer run = trailing_segment text) /\
  (run_app run_closed, run_receivedCount run_closed) =
    for_lines JSON_parse N [trailing_segment text +:+ tail]
      (run_app run, run_receivedCount run) /\
  (run_app run_open, run_receivedCount run_open) =
    (run_app run, run_receivedCount run) /\
  (run_receivedCount run_open < N ->
   run_buffer run_open = trailing_segment text +:+ tail).
Proof.
  cbv zeta.
  assert (Hseg : has_newline (trailing_segment (concat_chunks chunks) +:+ tail)
                 = false).
  { now rewrite has_newline_app, trailing_segment_has_no_newline, Htail. }
  split; [apply streamData_lines|]. split; [|split; [|split]].
  - rewrite streamData_ok. cbv zeta. simpl. intros H.
    now rewrite read_loop_buffer.
  - rewrite (streamData_lines JSON_parse (chunks ++ [terminated tail])).
    rewrite (streamData_lines JSON_parse chunks).
    rewrite concat_chunks_app, complete_lines_app, for_lines_app.
    f_equal. simpl concat_chunks. rewrite append_empty_r.
    unfold terminated. rewrite <- append_associative.
    now apply complete_lines_terminated.
  - rewrite (streamData_lines JSON_parse (chunks ++ [tail])).
    rewrite (streamData_lines JSON_parse chunks).
    rewrite concat_chunks_app, complete_lines_app, for_lines_app.
    simpl concat_chunks. rewrite append_empty_r.
    now rewrite (complete_lines_open _ Hseg).
  - rewrite streamData_ok. cbv zeta. simpl. intros H.
    rewrite read_loop_buffer; [|reflexivity|exact H].
    change (EmptyString +:+ concat_chunks (chunks ++ [tail]))
      with (concat_chunks (chunks ++ [tail])).
    rewrite concat_chunks_app, trailing_segment_app.
    simpl concat_chunks. rewrite append_empty_r.
    now apply trailing_segment_open.
Qed.

(** *** Skipped lines *)

Lemma step_line_same_data line (s1 s2 : App * Z) :
  same_data s1 s2 ->
  same_data (step_line JSON_parse line s1) (step_line JSON_parse line s2).
Proof.
  destruct s1 as [a1 n1], s2 as [a2 n2]. unfold same_data, step_line.
  simpl. intros [Hu Hn].
  destruct (try_line JSON_parse line); simpl; rewrite ?Hu, ?Hn; auto.
Qed.

Lemma for_lines_same_data N lines (s1 s2 : App * Z) :
  same_data s1 s2 ->
  same_data (for_lines JSON_parse N lines s1)
            (for_lines JSON_parse N lines s2).
Proof.
  revert s1 s2. induction lines as [|line rest IH]; intros s1 s2 H; simpl;
    [exact H|].
  destruct H as [Hu Hn]. rewrite Hn.
  destruct (snd s2 >=? N); [now split|].
  apply IH, step_line_same_data. now split.
Qed.

Lemma step_line_throws line error (s : App * Z) :
  try_line JSON_parse line = LineThrows error ->
  step_line JSON_parse line s =
  (console_error (ErrorParsingChunk line error) (fst s), snd s).
Proof. intros H. destruct s as [st n]. unfold step_line. now rewrite H. Qed.

Lemma step_line_console line (s : App * Z) entry :
  In entry (console (fst s)) ->
  In entry (console (fst (step_line JSON_parse line s))).
Proof.
  destruct s as [st n]. unfold step_line.
  destruct (try_line JSON_parse line); simpl; auto.
  intros H. apply in_app_iff. now left.
Qed.

Lemma for_lines_console N lines (s : App * Z) entry :
  In entry (console (fst s)) ->
  In entry (console (fst (for_lines JSON_parse N lines s))).
Proof.
  revert s. induction lines as [|line rest IH]; intros s H; simpl;
    [exact H|].
  destruct (snd s >=? N); [exact H|]. now apply IH, step_line_console.
Qed.

Lemma for_lines_count_length N lines (s : App * Z) :
  snd (for_lines JSON_parse N lines s) <= snd s + Z.of_nat (length lines).
Proof.
  revert s. induction lines as [|line rest IH]; intros s; simpl length;
    simpl for_lines; [lia|].
  destruct (snd s >=? N); [lia|].
  pose proof (step_line_count JSON_parse line s).
  specialize (IH (step_line JSON_parse line s)). lia.
Qed.

Lemma stored_append_unless_exists user v (l : list JsValue) :
  stored user l -> stored user (append_unless_exists v l).
Proof.
  unfold append_unless_exists. destruct (existsb _ l); [tauto|].
  intros [H|H]; [left|right].
  - apply in_app_iff. now left.
  - rewrite existsb_app, H. reflexivity.
Qed.

Lemma stored_after_append user (l : list JsValue) :
  stored user (append_unless_exists user l).
Proof.
  unfold append_unless_exists.
  destruct (existsb _ l) eqn:E; [now right|].
  left. apply in_app_iff. right. now left.
Qed.

Lemma step_line_stored line user (s : App * Z) :
  stored user (streamUsers (fst s)) ->
  stored user (streamUsers (fst (step_line JSON_parse line s))).
Proof.
  destruct s as [st n]. unfold step_line.
  destruct (try_line JSON_parse line); simpl; auto.
  apply stored_append_unless_exists.
Qed.

Lemma for_lines_stored N lines user (s : App * Z) :
  stored user (streamUsers (fst s)) ->
  stored user (streamUsers (fst (for_lines JSON_parse N lines s))).
Proof.
  revert s. induction lines as [|line rest IH]; intros s H; simpl;
    [exact H|].
  destruct (snd s >=? N); [exact H|]. now apply IH, step_line_stored.
Qed.

(** With a limit that the lines cannot reach, every line that passes
    validation has its record stored. *)
Lemma for_lines_stores N lines (s : App * Z) :
  snd s + Z.of_nat (length lines) <= N ->
  forall line user,
    In line lines -> try_line JSON_parse line = LineAccepted user ->
    stored user (streamUsers (fst (for_lines JSON_parse N lines s))).
Proof.
  revert s. induction lines as [|l rest IH]; intros s HN line user;
    simpl In; [tauto|].
  simpl length in HN. simpl for_lines.
  destruct (snd s >=? N) eqn:E; [apply geb_true in E; lia|].
  pose proof (step_line_count JSON_parse l s) as Hc.
  intros [->|Hin] Hok.
  - apply for_lines_stored. destruct s as [st n]. unfold step_line.
    rewrite Hok. simpl. apply stored_after_append.
  - apply (IH (step_line JSON_parse l s)) with (line := line);
      [lia|exact Hin|exact Hok].
Qed.

(** C6: a line on which [JSON.parse] or the validation throws is skipped
    and logged, and ingestion goes on. A stream whose complete lines are
    [pre], the bad line, then [post] ends with the output sequence and the
    count of a stream whose complete lines are [pre] then [post]; the bad
    line is logged with its error when the limit is not reached before it;
    and under a limit that the number of lines does not exceed, every
    valid line before and after it has its record stored. *)
Theorem bad_line_is_skipped_and_logged (N : Z) (chunks chunks' : list string)
  (pre post : list string) (bad : string) (error : JsError) (st : App)
  (Hwith : complete_lines (concat_chunks chunks) = pre ++ bad :: post)
  (Hwithout : complete_lines (concat_chunks chunks') = pre ++ post)
  (Hbad : try_line JSON_parse bad = LineThrows error) :
  let run := streamData JSON_parse (ok_response chunks) N st in
  let run' := streamData JSON_parse (ok_response chunks') N st in
  streamUsers (run_app run) = streamUsers (run_app run') /\
  run_receivedCount run = run_receivedCount run' /\
  (Z.of_nat (length pre) < N ->
   In (ErrorParsingChunk bad error) (console (run_app run))) /\
  (Z.of_nat (length (pre ++ bad :: post)) <= N ->
   forall line user,
     In line (pre ++ post) ->
     try_line JSON_parse line = LineAccepted user ->
     stored user (streamUsers (run_app run))).
Proof.
  cbv zeta.
  pose proof (streamData_lines JSON_parse chunks N st) as H.
  pose proof (streamData_lines JSON_parse chunks' N st) as H'.
  cbv zeta in H, H'. rewrite Hwith in H. rewrite Hwithout in H'.
  set (s0 := (setStreamUsers (fun _ => []) st, 0)) in *.
  set (run := streamData JSON_parse (ok_response chunks) N st) in *.
  set (run' := streamData JSON_parse (ok_response chunks') N st) in *.
  assert (Hu : streamUsers (run_app run) =
               streamUsers (fst (for_lines JSON_parse N
                                   (pre ++ bad :: post) s0)))
    by now rewrite <- H.
  assert (Hc : console (run_app run) =
               console (fst (for_lines JSON_parse N
                               (pre ++ bad :: post) s0)))
    by now rewrite <- H.
  assert (Hsame : same_data
            (for_lines JSON_parse N (pre ++ bad :: post) s0)
            (for_lines JSON_parse N (pre ++ post) s0)).
  { rewrite !for_lines_app. simpl.
    destruct (snd (for_lines JSON_parse N pre s0) >=? N) eqn:E.
    - apply geb_true in E.
      rewrite (for_lines_at_limit _ N post _ E). now split.
    - apply for_lines_same_data.
      rewrite (step_line_throws _ _ _ Hbad). now split. }
  rewrite <- H, <- H' in Hsame. destruct Hsame as [Hs1 Hs2].
  split; [exact Hs1|]. split; [exact Hs2|]. split.
  - intros Hlt. rewrite Hc, for_lines_app. cbn [for_lines].
    pose proof (for_lines_count_length N pre s0) as Hlen.
    change (snd s0) with 0 in Hlen.
    destruct (snd (for_lines JSON_parse N pre s0) >=? N) eqn:E;
      [apply geb_true in E; lia|].
    apply for_lines_console.
    rewrite (step_line_throws _ _ _ Hbad). simpl.
    apply in_app_iff. right. now left.
  - intros Hlen line user Hin Hok. rewrite Hu.
    apply (for_lines_stores N (pre ++ bad :: post) s0) with (line := line);
      [exact Hlen| |exact Hok].
    apply in_app_iff. apply in_app_iff in Hin. simpl. tauto.
Qed.

(** A validated record whose id is the id of a record already in the
    output sequence is not appended, and is counted all the same. *)
Lemma duplicate_is_counted (N : Z) (line : string) (user : JsValue)
  (st : App) (n : Z) :
  n < N ->
  try_line JSON_parse line = LineAccepted user ->
  existsb (fun u => strict_eq (field u "id") (field user "id"))
          (streamUsers st) = true ->
  for_lines JSON_parse N [line] (st, n) = (st, n + 1).
Proof.
  intros Hn Hok Hdup. simpl. apply geb_false in Hn. rewrite Hn.
  unfold step_line. rewrite Hok. unfold setStreamUsers, append_unless_exists.
  rewrite Hdup. now destruct st.
Qed.

Lemma falsy_field_throws (line : string) (fields : list (string * JsValue)) :
  String.eqb (trim line) EmptyString = false ->
  JSON_parse line = Some (JObj fields) ->
  truthy (own_property "id" fields) = false \/
  truthy (own_property "name" fields) = false ->
  try_line JSON_parse line = LineThrows InvalidUserData.
Proof.
  intros Hblank Hparse Hfalsy. unfold try_line.
  rewrite Hblank, Hparse. simpl.
  destruct (truthy (own_property "id" fields)); simpl; [|reflexivity].
  destruct Hfalsy as [H|H]; [discriminate|]. now rewrite H.
Qed.

End IngestorClaims.

(** ** Concrete streams *)

(** C2, as stated, fails: the count reaches the limit after the first
    chunk and the ingestor stops reading, but the reader it leaves behind
    still holds the lock of the stream and was not cancelled, with a
    chunk pending. *)
Lemma reader_left_open_at_limit :
  let run :=
    streamData parse_json
      (ok_response [terminated ann_text; terminated bob_text]) 1
      (initial_app ∅) in
  run_receivedCount run = 1 /\
  streamUsers (run_app run) = [ann_json] /\
  run_reader run =
    Some {| pending := [terminated bob_text]; reads := 1;
            locked := true; cancelled := false |}.
Proof. vm_compute. repeat split. Qed.

Lemma stream_stops_reading_at_limit_witness :
  1 <= 1 /\
  run_receivedCount
    (streamData parse_json
       (ok_response ([terminated ann_text] ++ [terminated bob_text])) 1
       (initial_app ∅)) <= 1.
Proof.
  assert (H : 1 <= 1) by lia. split; [exact H|].
  exact (proj2 (proj1 (stream_stops_reading_at_limit parse_json 1
                         [terminated ann_text] [terminated bob_text]
                         (initial_app ∅) H))).
Defined.

(** C5, as stated, fails: the stream ends after a valid record that no
    line feed follows; the record is not parsed, the output sequence is
    empty and the text is still in the buffer. *)
Lemma open_last_record_is_not_parsed :
  let run :=
    streamData parse_json (ok_response [ann_text]) 15 (initial_app ∅) in
  try_line parse_json ann_text = LineAccepted ann_json /\
  streamUsers (run_app run) = [] /\
  run_receivedCount run = 0 /\
  run_buffer run = ann_text /\
  run_reader run =
    Some {| pending := []; reads := 2; locked := true; cancelled := false |}.
Proof. vm_compute. repeat split. Qed.

Lemma open_segment_waits_for_line_feed_witness :
  has_newline bob_text = false /\
  streamUsers
    (run_app
       (streamData parse_json
          (ok_response ([terminated ann_text] ++ [bob_text])) 15
          (initial_app ∅))) =
  streamUsers
    (run_app
       (streamData parse_json (ok_response [terminated ann_text]) 15
          (initial_app ∅))).
Proof.
  assert (H : has_newline bob_text = false) by reflexivity.
  split; [exact H|].
  pose proof (open_segment_waits_for_line_feed parse_json 15
                [terminated ann_text] bob_text (initial_app ∅) H) as T.
  cbv zeta in T. destruct T as (_ & _ & _ & T & _).
  exact (f_equal (fun s => streamUsers (fst s)) T).
Defined.

Lemma bad_line_is_skipped_and_logged_witness :
  let chunks :=
    [terminated ann_text +:+ bad_text;
     terminated EmptyString +:+ terminated bob_text] in
  let chunks' := [terminated ann_text; terminated bob_text] in
  let run := streamData parse_json (ok_response chunks) 15 (initial_app ∅) in
  complete_lines (concat_chunks chunks) =
    [ann_text] ++ bad_text :: [bob_text] /\
  complete_lines (concat_chunks chunks') = [ann_text] ++ [bob_text] /\
  try_line parse_json bad_text = LineThrows SyntaxError /\
  In (ErrorParsingChunk bad_text SyntaxError) (console (run_app run)) /\
  stored bob_json (streamUsers (run_app run)).
Proof.
  cbv zeta.
  assert (H1 : complete_lines
                 (concat_chunks
                    [terminated ann_text +:+ bad_text;
                     terminated EmptyString +:+ terminated bob_text]) =
               [ann_text] ++ bad_text :: [bob_text]) by reflexivity.
  assert (H2 : complete_lines
                 (concat_chunks [terminated ann_text; terminated bob_text]) =
               [ann_text] ++ [bob_text]) by reflexivity.
  assert (H3 : try_line parse_json bad_text = LineThrows SyntaxError)
    by reflexivity.
  pose proof (bad_line_is_skipped_and_logged parse_json 15 _ _ _ _ _ _
                (initial_app ∅) H1 H2 H3) as T.
  cbv zeta in T. destruct T as (_ & _ & Tlog & Tall).
  split; [exact H1|]. split; [exact H2|]. split; [exact H3|]. split.
  - apply Tlog. simpl. lia.
  - apply (Tall ltac:(simpl; lia) bob_text bob_json).
    + simpl. right. left. reflexivity.
    + reflexivity.
Defined.

(** C9: a validated record whose id is the id of a record already in the
    output sequence is not appended and still adds one to the count that
    is compared with the limit. So a run can end at the limit with fewer
    distinct records than the limit while a further valid record with a
    new id is left unread: with limit 2 and the lines of Ann, Ann and Bob,
    the run counts 2, stores Ann alone and leaves Bob with the reader. *)
Theorem duplicate_id_uses_up_the_limit
  (JSON_parse : string -> option JsValue) (N : Z) (line : string)
  (user : JsValue) (st : App) (n : Z)
  (Hguard : n < N)
  (Hvalid : try_line JSON_parse line = LineAccepted user)
  (Hdup : existsb (fun u => strict_eq (field u "id") (field user "id"))
                  (streamUsers st) = true) :
  for_lines JSON_parse N [line] (st, n) = (st, n + 1) /\
  (let run :=
     streamData parse_json
       (ok_response
          [terminated ann_text; terminated ann_text; terminated bob_text])
       2 (initial_app ∅) in
   run_receivedCount run = 2 /\
   streamUsers (run_app run) = [ann_json] /\
   try_line parse_json bob_text = LineAccepted bob_json /\
   strict_eq (field ann_json "id") (field bob_json "id") = false /\
   run_reader run =
     Some {| pending := [terminated bob_text]; reads := 2;
             locked := true; cancelled := false |}).
Proof.
  split;
    [exact (duplicate_is_counted JSON_parse N line user st n
              Hguard Hvalid Hdup)|].
  vm_compute. repeat split.
Qed.

Lemma duplicate_id_uses_up_the_limit_witness :
  let st := setStreamUsers (fun _ => [ann_json]) (initial_app ∅) in
  1 < 2 /\
  try_line parse_json ann_text = LineAccepted ann_json /\
  for_lines parse_json 2 [ann_text] (st, 1) = (st, 2).
Proof.
  cbv zeta. assert (H : 1 < 2) by lia.
  split; [exact H|]. split; [reflexivity|].
  exact (proj1 (duplicate_id_uses_up_the_limit parse_json 2 ann_text
                  ann_json
                  (setStreamUsers (fun _ => [ann_json]) (initial_app ∅))
                  1 H eq_refl eq_refl)).
Defined.

(** C10: the validation rejects a parsed record whose [id] or [name] is
    falsy: the line throws the invalid-data error, so the record is not
    stored, the count does not move and the line is logged. The number 0
    and the empty string are falsy, so a record with id 0 or with an
    empty name is skipped. *)
Theorem falsy_id_or_name_is_rejected
  (JSON_parse : string -> option JsValue) (line : string)
  (fields : list (string * JsValue)) (s : App * Z)
  (Hnonblank : String.eqb (trim line) EmptyString = false)
  (Hparsed : JSON_parse line = Some (JObj fields))
  (Hfalsy : truthy (own_property "id" fields) = false \/
            truthy (own_property "name" fields) = false) :
  try_line JSON_parse line = LineThrows InvalidUserData /\
  step_line JSON_parse line s =
    (console_error (ErrorParsingChunk line InvalidUserData) (fst s), snd s) /\
  streamUsers (fst (step_line JSON_parse line s)) = streamUsers (fst s) /\
  truthy (JNum 0) = false /\
  truthy (JStr EmptyString) = false.
Proof.
  pose proof (falsy_field_throws JSON_parse line fields
                Hnonblank Hparsed Hfalsy) as H.
  split; [exact H|].
  rewrite (step_line_throws JSON_parse line InvalidUserData s H).
  repeat split.
Qed.

Lemma falsy_id_or_name_is_rejected_witness :
  parse_json zero_id_text =
    Some (JObj [("id", JNum 0); ("name", JStr "Zed"); ("age", JNum 52)]) /\
  try_line parse_json zero_id_text = LineThrows InvalidUserData /\
  parse_json no_name_text =
    Some (JObj [("id", JNum 7); ("name", JStr EmptyString);
                ("age", JNum 52)]) /\
  try_line parse_json no_name_text = LineThrows InvalidUserData.
Proof.
  split; [reflexivity|]. split.
  - exact (proj1 (falsy_id_or_name_is_rejected parse_json zero_id_text
                    _ (initial_app ∅, 0) eq_refl eq_refl
                    (or_introl eq_refl))).
  - split; [reflexivity|].
    exact (proj1 (falsy_id_or_name_is_rejected parse_json no_name_text
                    _ (initial_app ∅, 0) eq_refl eq_refl
                    (or_intror eq_refl))).
Defined.

(* ================================================================== *)
(** * Part III: further properties of the program *)
(* ================================================================== *)

(** ** Sorting *)

Lemma sort_insert_Sorted {A} (cmp : A -> A -> Z) (R : A -> A -> Prop)
  (a : A) (l : list A) :
  (forall x y, cmp x y > 0 -> R y x) ->
  (forall x y, cmp x y <= 0 -> R x y) ->
  Sorted R l -> Sorted R (sort_insert cmp a l).
Proof.
  intros Hgt Hle. induction 1 as [|b l Hs IH Hb]; simpl.
  - repeat constructor.
  - destruct (Z.gtb_spec (cmp a b) 0) as [Hc|Hc].
    + constructor; [exact IH|].
      destruct Hb as [|c l Hbc]; simpl.
      * constructor. apply Hgt. lia.
      * destruct (Z.gtb_spec (cmp a c) 0); constructor;
          [exact Hbc|apply Hgt; lia].
    + constructor; [now constructor|]. constructor. now apply Hle.
Qed.

Lemma Array_sort_Sorted {A} (cmp : A -> A -> Z) (R : A -> A -> Prop)
  (l : list A) :
  (forall x y, cmp x y > 0 -> R y x) ->
  (forall x y, cmp x y <= 0 -> R x y) ->
  Sorted R (Array_sort cmp l).
Proof.
  intros Hgt Hle. induction l as [|a l IH]; simpl; [constructor|].
  now apply sort_insert_Sorted.
Qed.

(** A list that is in order already is left as it is. *)
Lemma Array_sort_of_Sorted {A} (cmp : A -> A -> Z) (l : list A) :
  Sorted (fun x y => cmp x y <= 0) l -> Array_sort cmp l = l.
Proof.
  induction 1 as [|a l Hs IH Ha]; simpl; [reflexivity|].
  rewrite IH. destruct Ha as [|b l Hab]; simpl; [reflexivity|].
  destruct (Z.gtb_spec (cmp a b) 0); [lia|reflexivity].
Qed.

(** Records that the comparator never puts in the wrong order keep their
    relative order. *)
Lemma sort_insert_filter {A} (cmp : A -> A -> Z) (p : A -> bool)
  (a : A) (l : list A) :
  (forall x y, p x = true -> p y = true -> cmp x y <= 0) ->
  List.filter p (sort_insert cmp a l) = List.filter p (a :: l).
Proof.
  intros Hp. induction l as [|b l IH]; [reflexivity|].
  simpl sort_insert. destruct (Z.gtb_spec (cmp a b) 0) as [Hc|Hc];
    [|reflexivity].
  simpl List.filter at 1. rewrite IH. simpl.
  destruct (p a) eqn:Ea, (p b) eqn:Eb; try reflexivity.
  specialize (Hp a b Ea Eb). lia.
Qed.

Lemma Array_sort_filter {A} (cmp : A -> A -> Z) (p : A -> bool)
  (l : list A) :
  (forall x y, p x = true -> p y = true -> cmp x y <= 0) ->
  List.filter p (Array_sort cmp l) = List.filter p l.
Proof.
  intros Hp. induction l as [|a l IH]; [reflexivity|].
  simpl Array_sort. rewrite (sort_insert_filter cmp p a _ Hp).
  simpl. now rewrite IH.
Qed.

Lemma filter_all {A} (p : A -> bool) (l : list A) :
  Forall (fun x => p x = true) l -> List.filter p l = l.
Proof.
  induction 1 as [|x l Hx _ IH]; simpl; [reflexivity|].
  now rewrite Hx, IH.
Qed.

Lemma Array_sort_Forall {A} (cmp : A -> A -> Z) (P : A -> Prop)
  (l : list A) :
  Forall P l -> Forall P (Array_sort cmp l).
Proof.
  intros H. eapply Permutation_Forall; [|exact H].
  symmetry. apply Array_sort_perm.
Qed.

Lemma filter_Forall {A} (p : A -> bool) (l : list A) :
  Forall (fun x => p x = true) (List.filter p l).
Proof.
  apply Forall_forall. intros x Hx. apply list_elem_of_In in Hx.
  now apply filter_In in Hx.
Qed.

Lemma by_code_units_refl (s : string) : by_code_units s s = 0.
Proof.
  unfold by_code_units. pose proof (String.compare_antisym s s) as H.
  destruct (String.compare s s); simpl in H; try discriminate; reflexivity.
Qed.

Lemma by_code_units_antisym (a b : string) :
  by_code_units a b > 0 -> by_code_units b a <= 0.
Proof.
  unfold by_code_units. rewrite (String.compare_antisym b a).
  destruct (String.compare a b); simpl; lia.
Qed.

Section MoreProcessingFacts.

Variable localeCompare : string -> string -> Z.

(** X1: with a sort key other than [name], the records both paths
    produce are in non-decreasing order of age, every record before
    every later one, and all of them are strictly older than the
    threshold. *)
Theorem processed_users_sorted_by_age (minAge : Z) (sortBy : string)
  (st : App) (t0 t1 : Z)
  (Hkey : String.eqb sortBy "name" = false) :
  let by_age := fun a b : User => user_age a <= user_age b in
  let inline := users (processInMainThread localeCompare t0 t1 minAge sortBy st) in
  let posted :=
    resp_users
      (worker_onmessage localeCompare t0 t1
         {| req_users := users st; req_minAge := minAge;
            req_sortBy := sortBy |}) in
  StronglySorted by_age inline /\
  StronglySorted by_age posted /\
  Forall (fun u => user_age u > minAge) inline.
Proof.
  cbv zeta.
  assert (Hs : forall l,
             StronglySorted (fun a b : User => user_age a <= user_age b)
               (Array_sort (compare_users localeCompare sortBy) l)).
  { intros l. apply Sorted_StronglySorted.
    - intros a b c. lia.
    - apply Array_sort_Sorted; intros x y; unfold compare_users;
        rewrite Hkey; lia. }
  split; [apply Hs|]. split; [apply Hs|].
  simpl. apply Array_sort_Forall. unfold main_filteredUsers.
  eapply Forall_impl; [apply filter_Forall|].
  simpl. intros u. rewrite Z.gtb_ltb, Z.ltb_lt. lia.
Qed.

(** X2: with the sort key [name], and a [localeCompare] that never says
    "after" in both directions, each record the paths produce is not
    after the next one in the order of [localeCompare]. *)
Theorem processed_users_sorted_by_name (minAge : Z) (st : App) (t0 t1 : Z)
  (Hanti : forall a b : string,
     localeCompare a b > 0 -> localeCompare b a <= 0) :
  let by_name :=
    fun a b : User => localeCompare (user_name a) (user_name b) <= 0 in
  Sorted by_name
    (users (processInMainThread localeCompare t0 t1 minAge "name" st)) /\
  Sorted by_name
    (resp_users
       (worker_onmessage localeCompare t0 t1
          {| req_users := users st; req_minAge := minAge;
             req_sortBy := "name" |})).
Proof.
  cbv zeta.
  assert (Hs : forall l,
             Sorted (fun a b : User =>
                       localeCompare (user_name a) (user_name b) <= 0)
               (Array_sort (compare_users localeCompare "name") l)).
  { intros l. apply Array_sort_Sorted; intros x y; unfold compare_users;
      simpl; [apply Hanti|tauto]. }
  split; apply Hs.
Qed.

(** X3: the sort is stable. With a [localeCompare] that finds a name
    not after itself, the records that share the sort key of a record
    (its name under the key [name], its age under another key) come out
    in the order they had after the filter. *)
Theorem processing_keeps_order_of_equal_keys (minAge : Z) (sortBy : string)
  (st : App) (t0 t1 : Z) (u : User)
  (Hrefl : forall s : string, localeCompare s s <= 0) :
  List.filter (same_key sortBy u)
    (users (processInMainThread localeCompare t0 t1 minAge sortBy st)) =
  List.filter (same_key sortBy u) (main_filteredUsers minAge st).
Proof.
  simpl. apply Array_sort_filter. intros x y Hx Hy.
  unfold same_key, compare_users in *.
  destruct (String.eqb sortBy "name").
  - apply String.eqb_eq in Hx, Hy. rewrite Hx, Hy. apply Hrefl.
  - apply Z.eqb_eq in Hx, Hy. lia.
Qed.

(** X4: processing is idempotent. With a [localeCompare] that never says
    "after" in both directions, processing the processed records once
    more, with the same threshold and key, leaves them as they are. *)
Theorem processing_twice_changes_nothing (minAge : Z) (sortBy : string)
  (st : App) (t0 t1 t2 t3 : Z)
  (Hanti : forall a b : string,
     localeCompare a b > 0 -> localeCompare b a <= 0) :
  let once := processInMainThread localeCompare t0 t1 minAge sortBy st in
  users (processInMainThread localeCompare t2 t3 minAge sortBy once) =
  users once.
Proof.
  cbv zeta. simpl. unfold main_filteredUsers at 1. simpl.
  set (kept := main_filteredUsers minAge st).
  rewrite filter_all.
  - apply Array_sort_of_Sorted. apply Array_sort_Sorted; [|tauto].
    intros x y. unfold compare_users.
    destruct (String.eqb sortBy "name"); [apply Hanti|lia].
  - apply Array_sort_Forall. apply filter_Forall.
Qed.

End MoreProcessingFacts.

Lemma processed_users_sorted_by_age_witness :
  String.eqb "age" "name" = false /\
  StronglySorted (fun a b : User => user_age a <= user_age b)
    (users (processInMainThread by_code_units 0 1 18 "age"
              (setUsers [ann; bob; cid] (initial_app ∅)))).
Proof.
  assert (H : String.eqb "age" "name" = false) by reflexivity.
  split; [exact H|].
  exact (proj1 (processed_users_sorted_by_age by_code_units 18 "age"
                  (setUsers [ann; bob; cid] (initial_app ∅)) 0 1 H)).
Defined.

Lemma processed_users_sorted_by_name_witness :
  (forall a b : string, by_code_units a b > 0 -> by_code_units b a <= 0) /\
  Sorted (fun a b : User => by_code_units (user_name a) (user_name b) <= 0)
    (users (processInMainThread by_code_units 0 1 18 "name"
              (setUsers [cid; bob; ann] (initial_app ∅)))).
Proof.
  split; [exact by_code_units_antisym|].
  exact (proj1 (processed_users_sorted_by_name by_code_units 18
                  (setUsers [cid; bob; ann] (initial_app ∅)) 0 1
                  by_code_units_antisym)).
Defined.

Lemma processing_keeps_order_of_equal_keys_witness :
  (forall s : string, by_code_units s s <= 0) /\
  List.filter (same_key "age" ann)
    (users (processInMainThread by_code_units 0 1 18 "age"
              (setUsers [cid; bob; ann] (initial_app ∅)))) =
  List.filter (same_key "age" ann)
    (main_filteredUsers 18 (setUsers [cid; bob; ann] (initial_app ∅))).
Proof.
  assert (H : forall s : string, by_code_units s s <= 0).
  { intros s. rewrite by_code_units_refl. lia. }
  split; [exact H|].
  exact (processing_keeps_order_of_equal_keys by_code_units 18 "age"
           (setUsers [cid; bob; ann] (initial_app ∅)) 0 1 ann H).
Defined.

Lemma processing_twice_changes_nothing_witness :
  (forall a b : string, by_code_units a b > 0 -> by_code_units b a <= 0) /\
  users (processInMainThread by_code_units 2 3 18 "name"
           (processInMainThread by_code_units 0 1 18 "name"
              (setUsers [cid; bob; ann] (initial_app ∅)))) =
  users (processInMainThread by_code_units 0 1 18 "name"
           (setUsers [cid; bob; ann] (initial_app ∅))).
Proof.
  split; [exact by_code_units_antisym|].
  exact (processing_twice_changes_nothing by_code_units 18 "name"
           (setUsers [cid; bob; ann] (initial_app ∅)) 0 1 2 3
           by_code_units_antisym).
Defined.

(** ** The cache and the parallel fetch *)

Lemma successfulData_fulfilled (responses : list (list User)) :
  successfulData (Promise_allSettled (List.map Fulfilled responses)) =
  List.concat responses.
Proof.
  unfold successfulData, Promise_allSettled.
  induction responses as [|r rs IH]; simpl; [reflexivity|].
  now rewrite IH.
Qed.

Lemma successfulData_rejected (outcomes : list (Settled (list User))) :
  Forall (fun o => exists e, o = Rejected e) outcomes ->
  successfulData (Promise_allSettled outcomes) = [].
Proof.
  unfold successfulData, Promise_allSettled.
  induction 1 as [|o os [e ->] _ IH]; simpl; [reflexivity|exact IH].
Qed.

Lemma dedupe_by_id_twice (l : list User) :
  dedupe_by_id (l ++ l) = dedupe_by_id l.
Proof.
  unfold dedupe_by_id. rewrite first_occurrences_app.
  rewrite (first_occurrences_all_seen l (List.map user_id l ++ [])).
  - apply app_nil_r.
  - intros u Hu. apply in_app_iff. left. now apply in_map.
Qed.

Lemma dedupe_by_id_distinct (l : list User) :
  NoDup (List.map user_id l) -> dedupe_by_id l = l.
Proof.
  intros H. apply first_occurrences_distinct; [exact H|]. intros u _ [].
Qed.

Lemma fetchParallelData_cached env pagesToFetch st entry :
  localStorage st !! "users" = Some entry ->
  now_lookup env - entry_timestamp entry <= CACHE_EXPIRY ->
  fetchParallelData env pagesToFetch st =
  setLoading false
    (setDataSource "cache"
       (setUsers (entry_data entry)
          (set_localStorage (localStorage st) (setLoading true st)))).
Proof.
  intros Hentry Hfresh. unfold fetchParallelData, getFromCache. simpl.
  rewrite Hentry. destruct (Z.gtb_spec (now_lookup env - entry_timestamp entry)
                               CACHE_EXPIRY); [lia|reflexivity].
Qed.

Lemma fetchParallelData_server env pagesToFetch st allResponses :
  fst (getFromCache (now_lookup env) "users" (localStorage st)) = None ->
  Promise_all (List.map (fetch_all env) (page_numbers pagesToFetch)) =
    Fulfilled allResponses ->
  let combined :=
    combinedUsers (List.concat allResponses)
      (successfulData
         (Promise_allSettled
            (List.map (fetch_settled env) (page_numbers pagesToFetch)))) in
  fetchParallelData env pagesToFetch st =
  mkApp combined (streamUsers st) false (Some "server")
    (mkMetrics (promiseAllEnd env - promiseAllStart env)
               (promiseSettledEnd env - promiseSettledStart env)
               (workerTime (metrics st)) (mainThreadTime (metrics st)))
    (saveToCache (now_save env) "users" combined
       (snd (getFromCache (now_lookup env) "users" (localStorage st))))
    (console st).
Proof.
  intros Hmiss Hall. cbv zeta. unfold fetchParallelData. simpl.
  destruct (getFromCache _ _ _) as [cached storage]. simpl in *.
  subst cached. rewrite Hall. reflexivity.
Qed.

Lemma handleProcessData_storage localeCompare useWorker run t0 t1 minAge
  sortBy st :
  localStorage
    (handleProcessData localeCompare useWorker run t0 t1 minAge sortBy st) =
  localStorage st.
Proof.
  unfold handleProcessData, processWithWorker, processInMainThread.
  destruct useWorker; [|reflexivity].
  destruct (Z.of_nat (length (users st)) =? 0); [reflexivity|].
  destruct run; reflexivity.
Qed.

(** X5: a lookup that misses keeps missing until the next save, whatever
    the clock says later (an expired entry is gone, not hidden); a lookup
    that hits changes nothing in the storage, so the age of an entry is
    counted from its save, not from its last use; and no lookup touches
    another key. *)
Theorem cache_lookup_effects (now now' : Z) (key : string)
  (storage : gmap string CacheEntry) :
  let after := snd (getFromCache now key storage) in
  (fst (getFromCache now key storage) = None ->
   getFromCache now' key after = (None, after)) /\
  (forall data, fst (getFromCache now key storage) = Some data ->
                after = storage) /\
  (forall other, other <> key -> after !! other = storage !! other).
Proof.
  cbv zeta. destruct (storage !! key) as [cached|] eqn:E.
  - destruct (now - entry_timestamp cached >? CACHE_EXPIRY) eqn:G.
    + assert (H : getFromCache now key storage = (None, delete key storage))
        by (unfold getFromCache; rewrite E, G; reflexivity).
      rewrite H. simpl. split; [|split].
      * intros _. apply getFromCache_absent, lookup_delete_eq.
      * discriminate.
      * intros other Hne. apply lookup_delete_ne. congruence.
    + assert (H : getFromCache now key storage =
                  (Some (entry_data cached), storage))
        by (unfold getFromCache; rewrite E, G; reflexivity).
      rewrite H. simpl. split; [discriminate|]. split; reflexivity.
  - rewrite (getFromCache_absent now key storage E). simpl.
    split; [|split; [discriminate|reflexivity]].
    intros _. now apply getFromCache_absent.
Qed.


(** X7: while the cache holds an entry that is not older than the time to
    live, [fetchParallelData] shows the cached records and marks them as
    coming from the cache; no request is made (nothing depends on what
    the network would answer, nor on the number of pages), and metrics,
    cache and console stay as they were. *)
Theorem fresh_entry_is_served_without_requests (env : FetchEnv)
  (pagesToFetch : Z) (st : App) (entry : CacheEntry)
  (Hentry : localStorage st !! "users" = Some entry)
  (Hfresh : now_lookup env - entry_timestamp entry <= CACHE_EXPIRY) :
  let after := fetchParallelData env pagesToFetch st in
  users after = entry_data entry /\
  dataSource after = Some "cache" /\
  metrics after = metrics st /\
  localStorage after = localStorage st /\
  console after = console st /\
  (forall env' n,
     now_lookup env' = now_lookup env ->
     fetchParallelData env' n st = after).
Proof.
  cbv zeta.
  rewrite (fetchParallelData_cached env pagesToFetch st entry Hentry Hfresh).
  repeat split. intros env' n Hnow.
  apply fetchParallelData_cached; [exact Hentry|]. now rewrite Hnow.
Qed.

(** X8: after a call that fetched from the server, a second call within
    the time to live makes no request: it shows the same records, now
    marked as cached, and keeps the timings of the first call. *)
Theorem second_fetch_is_served_from_cache (env env' : FetchEnv)
  (pagesToFetch pagesToFetch' : Z) (st : App)
  (allResponses : list (list User))
  (Hmiss :
     fst (getFromCache (now_lookup env) "users" (localStorage st)) = None)
  (Hall :
     Promise_all (List.map (fetch_all env) (page_numbers pagesToFetch)) =
       Fulfilled allResponses)
  (Hsoon : now_lookup env' - now_save env <= CACHE_EXPIRY) :
  let first := fetchParallelData env pagesToFetch st in
  let second := fetchParallelData env' pagesToFetch' first in
  users second = users first /\
  dataSource first = Some "server" /\
  dataSource second = Some "cache" /\
  metrics second = metrics first /\
  localStorage second = localStorage first.
Proof.
  cbv zeta.
  rewrite (fetchParallelData_server env pagesToFetch st allResponses
             Hmiss Hall).
  cbv zeta.
  erewrite fetchParallelData_cached;
    [|unfold saveToCache; simpl; apply lookup_insert_eq|exact Hsoon].
  repeat split.
Qed.

(** X9: a refresh never shows cached records. The result does not depend
    on the entry the cache held; when a request of the fail-fast round is
    rejected, the records on display stay and the cache is left without
    an entry; when the round is fulfilled, the records are marked as
    coming from the server and the cache holds them with the time of the
    save. *)
Theorem refresh_ignores_the_cache (env : FetchEnv) (pagesToFetch : Z)
  (st : App) (entry : CacheEntry) :
  let pages := page_numbers pagesToFetch in
  let after := refreshData env pagesToFetch st in
  refreshData env pagesToFetch
    (set_localStorage (<["users" := entry]> (localStorage st)) st) = after /\
  (forall error,
     Promise_all (List.map (fetch_all env) pages) = Rejected error ->
     users after = users st /\
     dataSource after = dataSource st /\
     localStorage after !! "users" = None) /\
  (forall allResponses,
     Promise_all (List.map (fetch_all env) pages) = Fulfilled allResponses ->
     dataSource after = Some "server" /\
     localStorage after !! "users" =
       Some {| entry_data := users after;
               entry_timestamp := now_save env |}).
Proof.
  cbv zeta. unfold refreshData.
  assert (Hmiss : forall s : App,
            fst (getFromCache (now_lookup env) "users"
                   (localStorage
                      (set_localStorage (delete "users" (localStorage s)) s)))
            = None).
  { intros s. simpl. rewrite getFromCache_absent; [reflexivity|].
    apply lookup_delete_eq. }
  split; [|split].
  - simpl. now rewrite delete_insert_eq.
  - intros error Hrej.
    rewrite (fetchParallelData_rejected env pagesToFetch _ error
               (Hmiss st) Hrej).
    simpl. repeat split.
    rewrite getFromCache_absent by apply lookup_delete_eq.
    simpl. apply lookup_delete_eq.
  - intros allResponses Hall.
    rewrite (fetchParallelData_server env pagesToFetch _ allResponses
               (Hmiss st) Hall).
    simpl. split; [reflexivity|]. unfold saveToCache.
    apply lookup_insert_eq.
Qed.

(** X10: with a number of pages that is zero or negative (the input
    accepts a negative number), no request is made and the call succeeds
    with no record: the empty list is shown as server data and is cached,
    so the next calls within the time to live show the empty list from
    the cache. *)
Theorem no_page_gives_an_empty_cached_list (env env' : FetchEnv)
  (pagesToFetch pagesToFetch' : Z) (st : App)
  (Hmiss :
     fst (getFromCache (now_lookup env) "users" (localStorage st)) = None)
  (Hnone : pagesToFetch <= 0)
  (Hsoon : now_lookup env' - now_save env <= CACHE_EXPIRY) :
  let after := fetchParallelData env pagesToFetch st in
  let again := fetchParallelData env' pagesToFetch' after in
  page_numbers pagesToFetch = [] /\
  users after = [] /\
  dataSource after = Some "server" /\
  console after = console st /\
  localStorage after !! "users" =
    Some {| entry_data := []; entry_timestamp := now_save env |} /\
  users again = [] /\
  dataSource again = Some "cache".
Proof.
  cbv zeta.
  assert (Hpages : page_numbers pagesToFetch = []).
  { unfold page_numbers. replace (Z.to_nat pagesToFetch) with 0%nat by lia.
    reflexivity. }
  assert (Hall : Promise_all
                   (List.map (fetch_all env) (page_numbers pagesToFetch)) =
                 Fulfilled []) by now rewrite Hpages.
  rewrite (fetchParallelData_server env pagesToFetch st [] Hmiss Hall).
  cbv zeta. rewrite Hpages. simpl.
  split; [reflexivity|]. split; [reflexivity|]. split; [reflexivity|].
  split; [reflexivity|]. split; [apply lookup_insert_eq|].
  erewrite fetchParallelData_cached;
    [|unfold saveToCache; simpl; apply lookup_insert_eq|exact Hsoon].
  split; reflexivity.
Qed.

(** X11: once the fail-fast round is fulfilled, nothing the second round
    does can fail the call: whatever its requests give, no error is
    logged, the records are marked as coming from the server, and every
    id of the first round is among the records shown. When the second
    round brings nothing, the records are those of the first round
    without repeated ids. *)
Theorem second_round_cannot_fail_the_fetch (env : FetchEnv)
  (pagesToFetch : Z) (st : App) (allResponses : list (list User))
  (f : Z -> Settled (list User))
  (Hmiss :
     fst (getFromCache (now_lookup env) "users" (localStorage st)) = None)
  (Hall :
     Promise_all (List.map (fetch_all env) (page_numbers pagesToFetch)) =
       Fulfilled allResponses) :
  let after := fetchParallelData (with_fetch_settled f env) pagesToFetch st in
  console after = console st /\
  dataSource after = Some "server" /\
  loading after = false /\
  (forall u, In u (List.concat allResponses) ->
     exists v, In v (users after) /\ user_id v = user_id u) /\
  ((forall page, exists error, f page = Rejected error) ->
   users after = dedupe_by_id (List.concat allResponses)).
Proof.
  cbv zeta.
  rewrite (fetchParallelData_server (with_fetch_settled f env) pagesToFetch
             st allResponses Hmiss Hall).
  cbv zeta. simpl. do 3 (split; [reflexivity|]). split.
  - intros u Hu. rewrite combinedUsers_dedupe.
    apply first_occurrences_covers; [|intros []].
    apply in_app_iff. now left.
  - intros Hf. rewrite successfulData_rejected.
    + now rewrite combinedUsers_dedupe, app_nil_r.
    + apply Forall_forall. intros o Ho. apply list_elem_of_In in Ho.
      apply in_map_iff in Ho. destruct Ho as [page [<- _]]. apply Hf.
Qed.

(** X12: when the second round returns the records of the first and their
    ids are pairwise distinct, the merge adds nothing: the records shown
    and cached are exactly those of the first round, page after page. *)
Theorem same_second_round_adds_nothing (env : FetchEnv) (pagesToFetch : Z)
  (st : App) (allResponses : list (list User))
  (Hmiss :
     fst (getFromCache (now_lookup env) "users" (localStorage st)) = None)
  (Hall :
     Promise_all (List.map (fetch_all env) (page_numbers pagesToFetch)) =
       Fulfilled allResponses)
  (Hsame :
     List.map (fetch_settled env) (page_numbers pagesToFetch) =
     List.map (fetch_all env) (page_numbers pagesToFetch))
  (Hdistinct : NoDup (List.map user_id (List.concat allResponses))) :
  let after := fetchParallelData env pagesToFetch st in
  users after = List.concat allResponses /\
  localStorage after !! "users" =
    Some {| entry_data := List.concat allResponses;
            entry_timestamp := now_save env |}.
Proof.
  cbv zeta.
  rewrite (fetchParallelData_server env pagesToFetch st allResponses
             Hmiss Hall).
  cbv zeta. rewrite Hsame.
  apply Promise_all_fulfilled in Hall. rewrite Hall.
  rewrite successfulData_fulfilled, combinedUsers_dedupe.
  rewrite dedupe_by_id_twice, (dedupe_by_id_distinct _ Hdistinct).
  simpl. split; [reflexivity|]. apply lookup_insert_eq.
Qed.

(** X13: processing does not reach the cache. After a fetch from the
    server and a processing step on either path, a further call within
    the time to live brings back the records as they were fetched,
    unfiltered and in their first order. *)
Theorem cached_records_survive_processing
  (localeCompare : string -> string -> Z) (env env' : FetchEnv)
  (pagesToFetch pagesToFetch' : Z) (st : App)
  (allResponses : list (list User))
  (useWorker : bool) (run : WorkerRun) (t0 t1 minAge : Z) (sortBy : string)
  (Hmiss :
     fst (getFromCache (now_lookup env) "users" (localStorage st)) = None)
  (Hall :
     Promise_all (List.map (fetch_all env) (page_numbers pagesToFetch)) =
       Fulfilled allResponses)
  (Hsoon : now_lookup env' - now_save env <= CACHE_EXPIRY) :
  let fetched := fetchParallelData env pagesToFetch st in
  let processed :=
    handleProcessData localeCompare useWorker run t0 t1 minAge sortBy
      fetched in
  users (fetchParallelData env' pagesToFetch' processed) = users fetched.
Proof.
  cbv zeta.
  set (fetched := fetchParallelData env pagesToFetch st).
  set (processed := handleProcessData _ _ _ _ _ _ _ fetched).
  assert (Hentry : localStorage processed !! "users" =
                   Some {| entry_data := users fetched;
                           entry_timestamp := now_save env |}).
  { unfold processed. rewrite handleProcessData_storage. unfold fetched.
    rewrite (fetchParallelData_server env pagesToFetch st allResponses
               Hmiss Hall).
    simpl. apply lookup_insert_eq. }
  now rewrite (fetchParallelData_cached env' pagesToFetch' processed _
                 Hentry Hsoon).
Qed.

Lemma fresh_entry_is_served_without_requests_witness :
  let st :=
    set_localStorage (saveToCache 1000 "users" [ann] ∅) (initial_app ∅) in
  localStorage st !! "users" =
    Some {| entry_data := [ann]; entry_timestamp := 1000 |} /\
  now_lookup a_minute_later - 1000 <= CACHE_EXPIRY /\
  users (fetchParallelData a_minute_later 2 st) = [ann].
Proof.
  cbv zeta.
  assert (H1 : localStorage
                 (set_localStorage (saveToCache 1000 "users" [ann] ∅)
                    (initial_app ∅)) !! "users" =
               Some {| entry_data := [ann]; entry_timestamp := 1000 |})
    by reflexivity.
  assert (H2 : now_lookup a_minute_later -
               entry_timestamp
                 {| entry_data := [ann]; entry_timestamp := 1000 |} <=
               CACHE_EXPIRY) by (vm_compute; discriminate).
  split; [exact H1|]. split; [exact H2|].
  exact (proj1 (fresh_entry_is_served_without_requests a_minute_later 2
                  _ _ H1 H2)).
Defined.

Lemma second_fetch_is_served_from_cache_witness :
  let first := fetchParallelData all_pages_arrive 2 (initial_app ∅) in
  now_lookup a_minute_later - now_save all_pages_arrive <= CACHE_EXPIRY /\
  users (fetchParallelData a_minute_later 2 first) = users first.
Proof.
  cbv zeta.
  assert (H1 : fst (getFromCache (now_lookup all_pages_arrive) "users"
                      (localStorage (initial_app ∅))) = None)
    by reflexivity.
  assert (H2 : Promise_all
                 (List.map (fetch_all all_pages_arrive) (page_numbers 2)) =
               Fulfilled (List.map result_value
                            (List.map page_record (page_numbers 2))))
    by reflexivity.
  assert (H3 : now_lookup a_minute_later - now_save all_pages_arrive <=
               CACHE_EXPIRY) by (vm_compute; discriminate).
  split; [exact H3|].
  exact (proj1 (second_fetch_is_served_from_cache all_pages_arrive
                  a_minute_later 2 2 (initial_app ∅) _ H1 H2 H3)).
Defined.

Lemma no_page_gives_an_empty_cached_list_witness :
  -3 <= 0 /\
  users (fetchParallelData all_pages_arrive (-3) (initial_app ∅)) = [] /\
  dataSource
    (fetchParallelData a_minute_later 2
       (fetchParallelData all_pages_arrive (-3) (initial_app ∅))) =
    Some "cache".
Proof.
  assert (H1 : fst (getFromCache (now_lookup all_pages_arrive) "users"
                      (localStorage (initial_app ∅))) = None)
    by reflexivity.
  assert (H2 : -3 <= 0) by lia.
  assert (H3 : now_lookup a_minute_later - now_save all_pages_arrive <=
               CACHE_EXPIRY) by (vm_compute; discriminate).
  pose proof (no_page_gives_an_empty_cached_list all_pages_arrive
                a_minute_later (-3) 2 (initial_app ∅) H1 H2 H3) as T.
  cbv zeta in T. destruct T as (_ & T1 & _ & _ & _ & _ & T2).
  split; [exact H2|]. split; [exact T1|exact T2].
Defined.

Lemma second_round_cannot_fail_the_fetch_witness :
  let f := fun _ : Z => @Rejected (list User) (FetchRejected "offline") in
  let after :=
    fetchParallelData (with_fetch_settled f all_pages_arrive) 2
      (initial_app ∅) in
  console after = [] /\ dataSource after = Some "server".
Proof.
  cbv zeta.
  assert (H1 : fst (getFromCache (now_lookup all_pages_arrive) "users"
                      (localStorage (initial_app ∅))) = None)
    by reflexivity.
  assert (H2 : Promise_all
                 (List.map (fetch_all all_pages_arrive) (page_numbers 2)) =
               Fulfilled (List.map result_value
                            (List.map page_record (page_numbers 2))))
    by reflexivity.
  pose proof (second_round_cannot_fail_the_fetch all_pages_arrive 2
                (initial_app ∅) _
                (fun _ => Rejected (FetchRejected "offline")) H1 H2) as T.
  cbv zeta in T. destruct T as (T1 & T2 & _).
  split; [exact T1|exact T2].
Defined.

Lemma same_second_round_adds_nothing_witness :
  let pages := List.map result_value (List.map page_record (page_numbers 2)) in
  NoDup (List.map user_id (List.concat pages)) /\
  users (fetchParallelData all_pages_arrive 2 (initial_app ∅)) =
    List.concat pages.
Proof.
  cbv zeta.
  assert (H1 : fst (getFromCache (now_lookup all_pages_arrive) "users"
                      (localStorage (initial_app ∅))) = None)
    by reflexivity.
  assert (H2 : Promise_all
                 (List.map (fetch_all all_pages_arrive) (page_numbers 2)) =
               Fulfilled (List.map result_value
                            (List.map page_record (page_numbers 2))))
    by reflexivity.
  assert (H3 : List.map (fetch_settled all_pages_arrive) (page_numbers 2) =
               List.map (fetch_all all_pages_arrive) (page_numbers 2))
    by reflexivity.
  assert (H4 : NoDup (List.map user_id
                        (List.concat
                           (List.map result_value
                              (List.map page_record (page_numbers 2)))))).
  { simpl. repeat constructor; rewrite list_elem_of_In; simpl; intuition lia. }
  split; [exact H4|].
  exact (proj1 (same_second_round_adds_nothing all_pages_arrive 2
                  (initial_app ∅) _ H1 H2 H3 H4)).
Defined.

Lemma cached_records_survive_processing_witness :
  let fetched := fetchParallelData all_pages_arrive 2 (initial_app ∅) in
  let processed :=
    handleProcessData by_code_units false WorkerFails 0 1 21 "age" fetched in
  now_lookup a_minute_later - now_save all_pages_arrive <= CACHE_EXPIRY /\
  users (fetchParallelData a_minute_later 2 processed) = users fetched.
Proof.
  cbv zeta.
  assert (H1 : fst (getFromCache (now_lookup all_pages_arrive) "users"
                      (localStorage (initial_app ∅))) = None)
    by reflexivity.
  assert (H2 : Promise_all
                 (List.map (fetch_all all_pages_arrive) (page_numbers 2)) =
               Fulfilled (List.map result_value
                            (List.map page_record (page_numbers 2))))
    by reflexivity.
  assert (H3 : now_lookup a_minute_later - now_save all_pages_arrive <=
               CACHE_EXPIRY) by (vm_compute; discriminate).
  split; [exact H3|].
  exact (cached_records_survive_processing by_code_units all_pages_arrive
           a_minute_later 2 2 (initial_app ∅) _ false WorkerFails 0 1 21
           "age" H1 H2 H3).
Defined.

(** ** The ingestor, further *)

Lemma ForallOrdPairs_snoc {A} (R : A -> A -> Prop) (l : list A) (a : A) :
  ForallOrdPairs R l -> Forall (fun x => R x a) l ->
  ForallOrdPairs R (l ++ [a]).
Proof.
  induction 1 as [|x l Hx Hl IH]; intros Ha; simpl.
  - repeat constructor.
  - inversion Ha as [|? ? Hxa Ha']; subst. constructor.
    + apply List.Forall_app. split; [exact Hx|]. now repeat constructor.
    + now apply IH.
Qed.

Lemma Forall_of_sublist {A} (P : A -> Prop) (k l : list A) :
  sublist k l -> Forall P l -> Forall P k.
Proof.
  induction 1 as [|x k l Hs IH|x k l Hs IH]; intros H;
    [constructor| |]; inversion H; subst; [constructor|]; auto.
Qed.

(** A text is its closed lines, each with its line feed, followed by its
    open segment. *)
Lemma join_cons (l : string) (ls : list string) (t : string) :
  concat_chunks (List.map terminated (l :: ls)) +:+ t =
  l +:+ String newline (concat_chunks (List.map terminated ls) +:+ t).
Proof.
  cbn [List.map concat_chunks fold_right]. unfold terminated.
  rewrite !append_associative. reflexivity.
Qed.

Lemma text_is_lines_and_segment (s : string) :
  concat_chunks (List.map terminated (complete_lines s)) +:+
  trailing_segment s = s.
Proof.
  unfold complete_lines, trailing_segment, slice_but_last, last_piece.
  induction s as [|c s IH]; [reflexivity|]. cbn [split_newline].
  destruct (split_newline_cons s) as [p [ps Hs]]. rewrite Hs in *.
  destruct (Ascii.eqb_spec c newline) as [->|Hc].
  - change (removelast (EmptyString :: p :: ps))
      with (EmptyString :: removelast (p :: ps)).
    change (List.last (EmptyString :: p :: ps) EmptyString)
      with (List.last (p :: ps) EmptyString).
    rewrite join_cons, IH. reflexivity.
  - destruct ps as [|q ps].
    + change (p = s) in IH. change (String c p = String c s).
      now rewrite IH.
    + change (removelast (String c p :: q :: ps))
        with (String c p :: removelast (q :: ps)).
      change (List.last (String c p :: q :: ps) EmptyString)
        with (List.last (q :: ps) EmptyString).
      change (removelast (p :: q :: ps))
        with (p :: removelast (q :: ps)) in IH.
      change (List.last (p :: q :: ps) EmptyString)
        with (List.last (q :: ps) EmptyString) in IH.
      rewrite join_cons in IH |- *. rewrite append_cons. now rewrite IH.
Qed.

Section MoreIngestorFacts.

Variable JSON_parse : string -> option JsValue.

Lemma try_line_accepted_valid line user :
  try_line JSON_parse line = LineAccepted user -> valid_record user.
Proof.
  unfold try_line.
  destruct (String.eqb (trim line) EmptyString); [discriminate|].
  destruct (JSON_parse line) as [v|]; [|discriminate].
  destruct (get_prop v "id") as [e|id] eqn:Gid; [discriminate|].
  destruct (truthy id) eqn:Eid; simpl; [|discriminate].
  destruct (get_prop v "name") as [e|name] eqn:Gname; [discriminate|].
  destruct (truthy name) eqn:Ename; simpl; [|discriminate].
  intros H. injection H as <-. unfold valid_record, field.
  rewrite Gid, Gname. now split.
Qed.

Lemma accepted_records_valid lines :
  Forall valid_record (accepted_records JSON_parse lines).
Proof.
  unfold accepted_records. induction lines as [|line lines IH]; simpl;
    [constructor|].
  destruct (try_line JSON_parse line) as [|user|error] eqn:E; simpl;
    try exact IH.
  constructor; [now apply (try_line_accepted_valid line)|exact IH].
Qed.

Lemma step_line_outside line (s : App * Z) :
  same_outside_stream (fst (step_line JSON_parse line s)) (fst s).
Proof.
  destruct s as [st n]. unfold step_line, same_outside_stream.
  destruct (try_line JSON_parse line); simpl; repeat split.
Qed.

Lemma for_lines_outside N lines (s : App * Z) :
  same_outside_stream (fst (for_lines JSON_parse N lines s)) (fst s).
Proof.
  revert s. induction lines as [|line rest IH]; intros s; simpl.
  - repeat split.
  - destruct (snd s >=? N); [repeat split|].
    destruct (IH (step_line JSON_parse line s)) as (H1 & H2 & H3 & H4 & H5).
    destruct (step_line_outside line s) as (G1 & G2 & G3 & G4 & G5).
    repeat split; congruence.
Qed.

(** The records the loop adds come after those that were there, and are
    accepted records of the lines, in the order of the lines. *)
Lemma for_lines_added N lines (s : App * Z) :
  exists added,
    streamUsers (fst (for_lines JSON_parse N lines s)) =
      streamUsers (fst s) ++ added /\
    sublist added (accepted_records JSON_parse lines).
Proof.
  revert s. induction lines as [|line rest IH]; intros s; simpl.
  - exists []. split; [now rewrite app_nil_r|constructor].
  - destruct (snd s >=? N).
    + exists []. split; [now rewrite app_nil_r|apply sublist_nil_l].
    + destruct (IH (step_line JSON_parse line s)) as [added [Hu Hs]].
      rewrite Hu. destruct s as [st n]. unfold step_line, accepted_records.
      simpl flat_map.
      destruct (try_line JSON_parse line) as [|user|error]; simpl.
      * exists added. split; [reflexivity|exact Hs].
      * unfold append_unless_exists. destruct (existsb _ (streamUsers st)).
        -- exists added. split; [reflexivity|]. now apply sublist_cons.
        -- exists (user :: added). rewrite <- app_assoc.
           split; [reflexivity|]. now apply sublist_skip.
      * exists added. split; [reflexivity|exact Hs].
Qed.


Lemma for_lines_ids_differ N lines (s : App * Z) :
  ForallOrdPairs ids_differ (streamUsers (fst s)) ->
  ForallOrdPairs ids_differ
    (streamUsers (fst (for_lines JSON_parse N lines s))).
Proof.
  revert s. induction lines as [|line rest IH]; intros s H; simpl;
    [exact H|].
  destruct (snd s >=? N); [exact H|]. apply IH.
  destruct s as [st n]. unfold step_line.
  destruct (try_line JSON_parse line) as [|user|error]; simpl; try exact H.
  unfold append_unless_exists.
  destruct (existsb _ (streamUsers st)) eqn:E; [exact H|].
  apply ForallOrdPairs_snoc; [exact H|].
  apply Forall_forall. intros u Hu. apply list_elem_of_In in Hu.
  unfold ids_differ. apply not_true_is_false. intros Heq.
  apply not_true_iff_false in E. apply E. apply existsb_exists.
  now exists u.
Qed.


Lemma streamData_status status chunks N st :
  streamData JSON_parse
    (Fulfilled {| ok := true; http_status := status; body := Some chunks |})
    N st =
  streamData JSON_parse (ok_response chunks) N st.
Proof. reflexivity. Qed.

Lemma streamData_state chunks N st :
  run_app (streamData JSON_parse (ok_response chunks) N st) =
  fst (for_lines JSON_parse N (complete_lines (concat_chunks chunks))
         (setStreamUsers (fun _ => []) st, 0)).
Proof.
  pose proof (streamData_lines JSON_parse chunks N st) as H. cbv zeta in H.
  now rewrite <- H.
Qed.

Lemma streamData_count chunks N st :
  run_receivedCount (streamData JSON_parse (ok_response chunks) N st) =
  snd (for_lines JSON_parse N (complete_lines (concat_chunks chunks))
         (setStreamUsers (fun _ => []) st, 0)).
Proof.
  pose proof (streamData_lines JSON_parse chunks N st) as H. cbv zeta in H.
  now rewrite <- H.
Qed.

(** X14: whatever the request gives, [streamData] changes nothing but
    the streamed records and the console: the records of the parallel
    fetch, the cache, the loading flag, the data source and the metrics
    are what they were. *)
Theorem streaming_stays_in_its_lane (fetched : Settled Response) (N : Z)
  (st : App) :
  same_outside_stream (run_app (streamData JSON_parse fetched N st)) st.
Proof.
  destruct fetched as [[o status [chunks|]]|e].
  - destruct o; [|unfold streamData; simpl; repeat split].
    rewrite streamData_status, streamData_state.
    destruct (for_lines_outside N (complete_lines (concat_chunks chunks))
                (setStreamUsers (fun _ => []) st, 0))
      as (H1 & H2 & H3 & H4 & H5).
    repeat split; assumption.
  - destruct o; unfold streamData; simpl; repeat split.
  - unfold streamData; simpl; repeat split.
Qed.

(** X15: a stream that cannot be opened (the request is rejected, the
    response is not ok, or it has no body) leaves no reader behind; the
    streamed records are cleared all the same, nothing is counted, and
    exactly one failure is logged. The status is looked at first: the
    body of a response that is not ok is never read. *)
Theorem unopened_stream_clears_the_output (fetched : Settled Response)
  (N : Z) (st : App) :
  let run := streamData JSON_parse fetched N st in
  (run_reader run = None <->
   forall status chunks,
     fetched <>
     Fulfilled {| ok := true; http_status := status;
                  body := Some chunks |}) /\
  (run_reader run = None ->
   streamUsers (run_app run) = [] /\
   run_receivedCount run = 0 /\
   exists error,
     console (run_app run) = console st ++ [StreamingFailed error]) /\
  (forall status b,
     fetched = Fulfilled {| ok := false; http_status := status; body := b |} ->
     run_reader run = None /\
     console (run_app run) =
       console st ++ [StreamingFailed (HttpError status)]).
Proof.
  cbv zeta. destruct fetched as [[o status [chunks|]]|e].
  - destruct o.
    + rewrite streamData_status, streamData_ok. cbv zeta. simpl.
      split; [split; [discriminate|]|split; [discriminate|]].
      * intros H. now destruct (H status chunks).
      * intros status' b H. discriminate.
    + unfold streamData. simpl. split; [split; [|reflexivity]|split].
      * intros _ status' chunks' H. discriminate.
      * intros _. repeat split. now exists (HttpError status).
      * intros status' b H. injection H as -> _. now split.
  - destruct o; unfold streamData; simpl.
    + split; [split; [|reflexivity]|split].
      * intros _ status' chunks' H. discriminate.
      * intros _. repeat split. now exists StreamNotSupported.
      * intros status' b H. discriminate.
    + split; [split; [|reflexivity]|split].
      * intros _ status' chunks' H. discriminate.
      * intros _. repeat split. now exists (HttpError status).
      * intros status' b H. injection H as -> _. now split.
  - unfold streamData. simpl. split; [split; [|reflexivity]|split].
    + intros _ status' chunks' H. discriminate.
    + intros _. repeat split. now exists e.
    + intros status' b H. discriminate.
Qed.


(** X17: the output sequence holds accepted records only, in the order
    of arrival: it is a subsequence of the records of the complete lines
    that pass parsing and validation, and each of its records has a
    truthy id and a truthy name. *)
Theorem output_is_in_arrival_order (chunks : list string) (N : Z)
  (st : App) :
  let run := streamData JSON_parse (ok_response chunks) N st in
  sublist (streamUsers (run_app run))
    (accepted_records JSON_parse (complete_lines (concat_chunks chunks))) /\
  Forall valid_record (streamUsers (run_app run)).
Proof.
  cbv zeta. rewrite streamData_state.
  destruct (for_lines_added N (complete_lines (concat_chunks chunks))
              (setStreamUsers (fun _ => []) st, 0)) as [added [Hu Hs]].
  simpl in Hu. rewrite Hu. split; [exact Hs|].
  eapply Forall_of_sublist; [exact Hs|]. apply accepted_records_valid.
Qed.

(** X18: whatever the stream holds, no two records of the output
    sequence have ids that are [===]. *)
Theorem output_ids_are_pairwise_different (fetched : Settled Response)
  (N : Z) (st : App) :
  ForallOrdPairs ids_differ
    (streamUsers (run_app (streamData JSON_parse fetched N st))).
Proof.
  destruct fetched as [[o status [chunks|]]|e];
    try (destruct o); try (unfold streamData; simpl; constructor).
  rewrite streamData_status, streamData_state.
  apply for_lines_ids_differ. simpl. constructor.
Qed.

(** X19: the result does not depend on how the network cuts the text
    into chunks: two bodies with the same text give the same state and
    the same count. *)
Theorem chunking_does_not_matter (chunks chunks' : list string) (N : Z)
  (st : App)
  (Htext : concat_chunks chunks = concat_chunks chunks') :
  let run := streamData JSON_parse (ok_response chunks) N st in
  let run' := streamData JSON_parse (ok_response chunks') N st in
  run_app run = run_app run' /\
  run_receivedCount run = run_receivedCount run'.
Proof.
  cbv zeta. rewrite !streamData_state, !streamData_count, Htext.
  split; reflexivity.
Qed.

(** X20: a blank line (empty or white space only) leaves no trace: a
    stream with the line and a stream without it end in the same state,
    console included, with the same count. *)
Theorem blank_line_leaves_no_trace (N : Z) (chunks chunks' : list string)
  (pre post : list string) (blank : string) (st : App)
  (Hwith : complete_lines (concat_chunks chunks) = pre ++ blank :: post)
  (Hwithout : complete_lines (concat_chunks chunks') = pre ++ post)
  (Hblank : String.eqb (trim blank) EmptyString = true) :
  let run := streamData JSON_parse (ok_response chunks) N st in
  let run' := streamData JSON_parse (ok_response chunks') N st in
  run_app run = run_app run' /\
  run_receivedCount run = run_receivedCount run'.
Proof.
  cbv zeta. rewrite !streamData_state, !streamData_count, Hwith, Hwithout.
  rewrite !for_lines_app. cbn [for_lines].
  set (s1 := for_lines JSON_parse N pre _).
  assert (Hstep : step_line JSON_parse blank s1 = s1).
  { destruct s1 as [a n]. unfold step_line, try_line. now rewrite Hblank. }
  destruct (snd s1 >=? N) eqn:E.
  - apply geb_true in E. rewrite (for_lines_at_limit _ N post s1 E).
    split; reflexivity.
  - rewrite Hstep. split; reflexivity.
Qed.

(** X21: with a limit that is zero or negative (the input accepts a
    negative number) the ingestor makes no read at all: the output is
    empty, nothing is logged, and every chunk stays with the reader. *)
Theorem nonpositive_limit_reads_nothing (chunks : list string) (N : Z)
  (st : App) (HN : N <= 0) :
  streamData JSON_parse (ok_response chunks) N st =
  {| run_app := setStreamUsers (fun _ => []) st;
     run_receivedCount := 0;
     run_buffer := EmptyString;
     run_reader :=
       Some {| pending := chunks; reads := 0;
               locked := true; cancelled := false |} |}.
Proof.
  rewrite streamData_ok. cbv zeta.
  rewrite read_loop_at_limit by (simpl; lia). reflexivity.
Qed.

(** X22: the buffering loses nothing and repeats nothing: when the run
    ends below the limit, the lines it went through, each with its line
    feed, followed by what is left in the buffer, are the text of the
    stream. *)
Theorem lines_and_buffer_make_the_text (chunks : list string) (N : Z)
  (st : App)
  (Hbelow :
     run_receivedCount (streamData JSON_parse (ok_response chunks) N st)
     < N) :
  let run := streamData JSON_parse (ok_response chunks) N st in
  concat_chunks
    (List.map terminated (complete_lines (concat_chunks chunks))) +:+
  run_buffer run = concat_chunks chunks.
Proof.
  cbv zeta. rewrite streamData_ok in *. cbv zeta in *. simpl in *.
  rewrite read_loop_buffer; [|reflexivity|exact Hbelow].
  apply text_is_lines_and_segment.
Qed.


(** X24: a line that holds a JSON value that is not an object (a number,
    a string, a boolean, an array, [null]) never gives a record: reading
    [id] from [null] throws a type error, and on the other values [id]
    is undefined, so the validation throws. *)
Theorem non_object_value_is_rejected (line : string) (v : JsValue)
  (Hnonblank : String.eqb (trim line) EmptyString = false)
  (Hparsed : JSON_parse line = Some v)
  (Hshape : forall fields, v <> JObj fields) :
  try_line JSON_parse line =
    LineThrows (match v with
                | JNull | JUndefined => TypeError
                | _ => InvalidUserData
                end).
Proof.
  unfold try_line. rewrite Hnonblank, Hparsed.
  destruct v; try reflexivity. now destruct (Hshape fields).
Qed.

End MoreIngestorFacts.

Lemma chunking_does_not_matter_witness :
  let whole := [terminated ann_text +:+ terminated bob_text] in
  let cut := [String "{" EmptyString; json "'id':1,'name':'Ann','age':31}";
              terminated EmptyString +:+ bob_text; terminated EmptyString] in
  concat_chunks whole = concat_chunks cut /\
  streamUsers
    (run_app (streamData parse_json (ok_response whole) 15 (initial_app ∅))) =
  streamUsers
    (run_app (streamData parse_json (ok_response cut) 15 (initial_app ∅))).
Proof.
  cbv zeta.
  assert (H : concat_chunks [terminated ann_text +:+ terminated bob_text] =
              concat_chunks
                [String "{" EmptyString;
                 json "'id':1,'name':'Ann','age':31}";
                 terminated EmptyString +:+ bob_text;
                 terminated EmptyString]) by reflexivity.
  split; [exact H|].
  exact (f_equal streamUsers
           (proj1 (chunking_does_not_matter parse_json _ _ 15
                     (initial_app ∅) H))).
Defined.

Lemma blank_line_leaves_no_trace_witness :
  let blank := String " " (String "013" EmptyString) in
  let chunks := [terminated ann_text; terminated blank; terminated bob_text] in
  let chunks' := [terminated ann_text; terminated bob_text] in
  complete_lines (concat_chunks chunks) = [ann_text] ++ blank :: [bob_text] /\
  complete_lines (concat_chunks chunks') = [ann_text] ++ [bob_text] /\
  String.eqb (trim blank) EmptyString = true /\
  run_app (streamData parse_json (ok_response chunks) 15 (initial_app ∅)) =
  run_app (streamData parse_json (ok_response chunks') 15 (initial_app ∅)).
Proof.
  cbv zeta.
  assert (H1 : complete_lines
                 (concat_chunks
                    [terminated ann_text;
                     terminated (String " " (String "013" EmptyString));
                     terminated bob_text]) =
               [ann_text] ++
               String " " (String "013" EmptyString) :: [bob_text])
    by reflexivity.
  assert (H2 : complete_lines
                 (concat_chunks [terminated ann_text; terminated bob_text]) =
               [ann_text] ++ [bob_text]) by reflexivity.
  assert (H3 : String.eqb (trim (String " " (String "013" EmptyString)))
                 EmptyString = true) by reflexivity.
  split; [exact H1|]. split; [exact H2|]. split; [exact H3|].
  exact (proj1 (blank_line_leaves_no_trace parse_json 15 _ _ _ _ _
                  (initial_app ∅) H1 H2 H3)).
Defined.

Lemma nonpositive_limit_reads_nothing_witness :
  -5 <= 0 /\
  run_reader
    (streamData parse_json (ok_response [terminated ann_text]) (-5)
       (initial_app ∅)) =
  Some {| pending := [terminated ann_text]; reads := 0;
          locked := true; cancelled := false |}.
Proof.
  assert (H : -5 <= 0) by lia. split; [exact H|].
  exact (f_equal run_reader
           (nonpositive_limit_reads_nothing parse_json
              [terminated ann_text] (-5) (initial_app ∅) H)).
Defined.

Lemma lines_and_buffer_make_the_text_witness :
  let chunks := [terminated ann_text +:+ String "{" EmptyString] in
  let run := streamData parse_json (ok_response chunks) 15 (initial_app ∅) in
  run_receivedCount run < 15 /\
  concat_chunks (List.map terminated (complete_lines (concat_chunks chunks)))
    +:+ run_buffer run = concat_chunks chunks.
Proof.
  cbv zeta.
  assert (H : run_receivedCount
                (streamData parse_json
                   (ok_response [terminated ann_text +:+ String "{" EmptyString])
                   15 (initial_app ∅)) < 15) by reflexivity.
  split; [exact H|].
  exact (lines_and_buffer_make_the_text parse_json _ 15 (initial_app ∅) H).
Defined.


Lemma non_object_value_is_rejected_witness :
  parse_json "[1,2]" = Some (JArr [JNum 1; JNum 2]) /\
  try_line parse_json "[1,2]" = LineThrows InvalidUserData /\
  parse_json "null" = Some JNull /\
  try_line parse_json "null" = LineThrows TypeError.
Proof.
  split; [reflexivity|]. split.
  - exact (non_object_value_is_rejected parse_json "[1,2]"
             (JArr [JNum 1; JNum 2]) eq_refl eq_refl
             ltac:(intros fields; discriminate)).
  - split; [reflexivity|].
    exact (non_object_value_is_rejected parse_json "null" JNull
             eq_refl eq_refl ltac:(intros fields; discriminate)).
Defined.

(** ** The mock server *)

Lemma create_users_length (draws : list Z) (c : Z) :
  length (fst (create_users draws c)) = length draws /\
  snd (create_users draws c) = c + Z.of_nat (length draws).
Proof.
  revert c. induction draws as [|d ds IH]; intros c; simpl.
  - split; [reflexivity|lia].
  - destruct (IH (c + 1)) as [H1 H2].
    destruct (create_users ds (c + 1)) as [us c']. simpl in *.
    split; [now rewrite H1|lia].
Qed.

Lemma create_users_ids (draws : list Z) (c : Z) :
  List.map user_id (fst (create_users draws c)) =
  seqZ c (Z.of_nat (length draws)).
Proof.
  revert c. induction draws as [|d ds IH]; intros c; simpl length.
  - reflexivity.
  - rewrite seqZ_cons by lia. simpl.
    specialize (IH (c + 1)).
    destruct (create_users ds (c + 1)) as [us c']. simpl in *.
    rewrite IH. f_equal. f_equal; lia.
Qed.

Lemma create_users_ages (draws : list Z) (c : Z) :
  List.map user_age (fst (create_users draws c)) =
  List.map (fun draw => draw + 18) draws.
Proof.
  revert c. induction draws as [|d ds IH]; intros c; simpl; [reflexivity|].
  specialize (IH (c + 1)).
  destruct (create_users ds (c + 1)) as [us c']. simpl in *.
  now rewrite IH.
Qed.

Lemma create_users_names (draws : list Z) (c : Z) :
  Forall (fun u =>
            user_name u = "User " +:+ pretty (user_id u + 1) /\
            user_email u =
              "user" +:+ pretty (user_id u + 1) +:+ "@example.com")
         (fst (create_users draws c)).
Proof.
  revert c. induction draws as [|d ds IH]; intros c; simpl; [constructor|].
  specialize (IH (c + 1)).
  destruct (create_users ds (c + 1)) as [us c']. simpl in *.
  constructor; [split; reflexivity|exact IH].
Qed.

Lemma create_users_app (a b : list Z) (c : Z) :
  create_users (a ++ b) c =
  (fst (create_users a c) ++ fst (create_users b (snd (create_users a c))),
   snd (create_users b (snd (create_users a c)))).
Proof.
  revert c. induction a as [|d a IH]; intros c; simpl.
  - now destruct (create_users b c).
  - rewrite IH. destruct (create_users a (c + 1)) as [us c']. simpl.
    reflexivity.
Qed.

Lemma stream_ticks_ended (draws : list Z) (res : StreamResponse) (c : Z) :
  stream_ended res = true -> stream_ticks draws (res, c) = (res, c).
Proof.
  intros H. induction draws as [|d ds IH]; [reflexivity|].
  unfold stream_ticks in *. simpl. now rewrite H.
Qed.

Lemma create_users_cons (d : Z) (ds : list Z) (c : Z) :
  create_users (d :: ds) c =
  (fst (createUser d c) :: fst (create_users ds (c + 1)),
   snd (create_users ds (c + 1))).
Proof. simpl. now destruct (create_users ds (c + 1)). Qed.

Lemma stream_tick_writes (d : Z) (sent : list User) (c : Z) :
  (length sent < 50)%nat ->
  stream_tick d
    ({| stream_count := Z.of_nat (length sent); stream_sent := sent;
        stream_ended := false |}, c) =
  ({| stream_count := Z.of_nat (length (sent ++ [fst (createUser d c)]));
      stream_sent := sent ++ [fst (createUser d c)];
      stream_ended := false |}, c + 1).
Proof.
  intros H. unfold stream_tick. simpl.
  destruct (Z.of_nat (length sent) >=? 50) eqn:E;
    [apply geb_true in E; lia|].
  rewrite length_app. simpl. do 2 f_equal. lia.
Qed.

Lemma stream_tick_ends (d : Z) (sent : list User) (c : Z) :
  (length sent = 50)%nat ->
  stream_tick d
    ({| stream_count := Z.of_nat (length sent); stream_sent := sent;
        stream_ended := false |}, c) =
  ({| stream_count := Z.of_nat (length sent); stream_sent := sent;
      stream_ended := true |}, c).
Proof.
  intros H. unfold stream_tick. simpl.
  destruct (Z.of_nat (length sent) >=? 50) eqn:E;
    [reflexivity|apply geb_false in E; lia].
Qed.

(** The response after some firings, from a state in which [count] is
    the number of records written. *)
Lemma stream_ticks_from (draws : list Z) (sent : list User) (c : Z) :
  (length sent <= 50)%nat ->
  let room := (50 - length sent)%nat in
  let batch := create_users (firstn room draws) c in
  stream_ticks draws
    ({| stream_count := Z.of_nat (length sent); stream_sent := sent;
        stream_ended := false |}, c) =
  ({| stream_count := Z.of_nat (length (sent ++ fst batch));
      stream_sent := sent ++ fst batch;
      stream_ended := (room <? length draws)%nat |}, snd batch).
Proof.
  cbv zeta. revert sent c. induction draws as [|d ds IH]; intros sent c Hle.
  - rewrite firstn_nil. simpl. rewrite app_nil_r.
    destruct (50 - length sent)%nat; reflexivity.
  - change (stream_ticks (d :: ds) ?s)
      with (stream_ticks ds (stream_tick d s)).
    destruct (Nat.eq_dec (length sent) 50%nat) as [Hfull|Hroom].
    + rewrite (stream_tick_ends d sent c Hfull).
      rewrite stream_ticks_ended by reflexivity.
      replace (50 - length sent)%nat with 0%nat by lia.
      simpl. rewrite app_nil_r. reflexivity.
    + rewrite (stream_tick_writes d sent c) by lia.
      rewrite IH by (rewrite length_app; simpl; lia).
      replace (50 - length sent)%nat
        with (S (50 - length (sent ++ [fst (createUser d c)])))
        by (rewrite length_app; simpl; lia).
      cbn [firstn]. rewrite create_users_cons. cbn [fst snd].
      rewrite <- !app_assoc. reflexivity.
Qed.

(** X25: the records of one batch get the ids [c], [c + 1], ... in
    order, where [c] is the counter before the batch, and the counter
    ends at [c] plus the size of the batch; so the ids of a batch are
    pairwise distinct. The name and the email of each record carry the
    number after its id, not its id. *)
Theorem created_ids_are_consecutive (draws : list Z) (c : Z) :
  let batch := fst (create_users draws c) in
  List.map user_id batch = seqZ c (Z.of_nat (length draws)) /\
  snd (create_users draws c) = c + Z.of_nat (length draws) /\
  NoDup (List.map user_id batch) /\
  Forall (fun u =>
            user_name u = "User " +:+ pretty (user_id u + 1) /\
            user_email u =
              "user" +:+ pretty (user_id u + 1) +:+ "@example.com") batch.
Proof.
  cbv zeta. split; [apply create_users_ids|].
  split; [apply create_users_length|].
  split; [rewrite create_users_ids; apply NoDup_seqZ|].
  apply create_users_names.
Qed.

(** X26: when every draw is one of 0, ..., 49, as the floor of fifty
    times a number of [0, 1) is, every record of the batch has an age
    from 18 to 67. *)
Theorem created_ages_are_18_to_67 (draws : list Z) (c : Z)
  (Hdraws : Forall (fun draw => 0 <= draw < 50) draws) :
  Forall (fun u => 18 <= user_age u <= 67) (fst (create_users draws c)).
Proof.
  apply Forall_forall. intros u Hu. apply list_elem_of_In in Hu.
  assert (Ha : In (user_age u)
                 (List.map user_age (fst (create_users draws c))))
    by now apply in_map.
  rewrite create_users_ages in Ha. apply in_map_iff in Ha.
  destruct Ha as [d [Hd Hin]].
  rewrite Forall_forall in Hdraws.
  specialize (Hdraws d ltac:(now apply list_elem_of_In)). lia.
Qed.

(** X27: the handler of [/api/users] ignores the page: the same query
    with another page gives the same array. The array has [limit]
    records, fifty when the limit is missing, not a number or zero, and
    none when it is negative. The records of a later request all have
    larger ids than those of an earlier one, whatever the two queries
    ask for. *)
Theorem users_handler_ignores_the_page (page page' limit : option Z)
  (random : nat -> Z) (c : Z) :
  let answer := get_users page limit random c in
  get_users page' limit random c = answer /\
  length (fst answer) = Z.to_nat (or_else limit 50) /\
  (limit = None \/ limit = Some 0 -> length (fst answer) = 50%nat) /\
  (forall n, limit = Some n -> n < 0 -> fst answer = []) /\
  (forall page2 limit2 random2 u1 u2,
     In u1 (fst answer) ->
     In u2 (fst (get_users page2 limit2 random2 (snd answer))) ->
     user_id u1 < user_id u2).
Proof.
  cbv zeta. unfold get_users.
  set (draws := List.map random (List.seq 0 (Z.to_nat (or_else limit 50)))).
  assert (Hlen : length draws = Z.to_nat (or_else limit 50))
    by (unfold draws; now rewrite length_map, length_seq).
  split; [reflexivity|].
  split; [now rewrite (proj1 (create_users_length draws c))|].
  split; [|split].
  - intros [->| ->]; rewrite (proj1 (create_users_length draws c)), Hlen;
      reflexivity.
  - intros n -> Hn.
    assert (Hd : draws = []).
    { apply length_zero_iff_nil. rewrite Hlen. unfold or_else.
      destruct (Z.eqb_spec n 0); lia. }
    now rewrite Hd.
  - intros page2 limit2 random2 u1 u2 H1 H2.
    set (draws2 := List.map random2
                     (List.seq 0 (Z.to_nat (or_else limit2 50)))) in H2.
    assert (G1 : In (user_id u1)
                   (List.map user_id (fst (create_users draws c))))
      by now apply in_map.
    assert (G2 : In (user_id u2)
                   (List.map user_id
                      (fst (create_users draws2
                              (snd (create_users draws c))))))
      by now apply in_map.
    rewrite create_users_ids in G1, G2.
    rewrite (proj2 (create_users_length draws c)) in G2.
    apply list_elem_of_In in G1, G2.
    apply elem_of_seqZ in G1, G2. lia.
Qed.

(** X28: a response of [/api/users-stream] never carries more than fifty
    records. After the firings of its interval, served without another
    request in between, it has written the first fifty records at most
    that [createUser] gives from the counter, it is ended exactly when
    there were more than fifty firings, and the counter has advanced by
    the number of records written. *)
Theorem stream_sends_fifty_records (draws : list Z) (c : Z) :
  let after := stream_ticks draws (new_stream, c) in
  let batch := create_users (firstn 50 draws) c in
  stream_sent (fst after) = fst batch /\
  snd after = snd batch /\
  stream_count (fst after) = Z.of_nat (length (stream_sent (fst after))) /\
  (length (stream_sent (fst after)) = Nat.min 50 (length draws)) /\
  stream_ended (fst after) = (50 <? length draws)%nat.
Proof.
  cbv zeta.
  pose proof (stream_ticks_from draws [] c ltac:(simpl; lia)) as H.
  cbv zeta in H.
  change (stream_ticks draws (new_stream, c))
    with (stream_ticks draws
            ({| stream_count := Z.of_nat (length (@nil User));
                stream_sent := []; stream_ended := false |}, c)).
  rewrite H. cbn [fst snd stream_sent stream_count stream_ended app length].
  replace (50 - 0)%nat with 50%nat by reflexivity.
  pose proof (create_users_length (firstn 50 draws) c) as [Hl _].
  split; [reflexivity|]. split; [reflexivity|].
  split; [reflexivity|]. split; [|reflexivity].
  rewrite Hl, length_firstn. reflexivity.
Qed.

Lemma created_ages_are_18_to_67_witness :
  Forall (fun draw => 0 <= draw < 50) [0; 49; 7] /\
  Forall (fun u => 18 <= user_age u <= 67)
         (fst (create_users [0; 49; 7] 1)).
Proof.
  assert (H : Forall (fun draw => 0 <= draw < 50) [0; 49; 7])
    by (repeat constructor; lia).
  split; [exact H|].
  exact (created_ages_are_18_to_67 [0; 49; 7] 1 H).
Defined.

(** ** The client on the stream of the server *)

Lemma pretty_N_go_has_no_newline (x : N) (s : string) :
  has_newline (pretty_N_go x s) = has_newline s.
Proof.
  revert s. induction (N.lt_wf_0 x) as [x _ IH]; intros s.
  assert (Hx : (x = 0 \/ 0 < x)%N) by lia. destruct Hx as [->|Hpos].
  - now rewrite pretty_N_go_0.
  - rewrite pretty_N_go_step by exact Hpos.
    rewrite IH by (apply N.div_lt; lia).
    unfold pretty_N_char. repeat case_match; reflexivity.
Qed.

Lemma pretty_N_has_no_newline (x : N) : has_newline (pretty x) = false.
Proof.
  unfold pretty, pretty_N. destruct (decide (x = 0%N)); [reflexivity|].
  apply pretty_N_go_has_no_newline.
Qed.

Lemma pretty_has_no_newline (n : Z) : has_newline (pretty n) = false.
Proof.
  destruct n as [|p|p]; [reflexivity| |].
  - apply (pretty_N_has_no_newline (N.pos p)).
  - change (pretty (Z.neg p)) with ("-" +:+ pretty (N.pos p)).
    rewrite has_newline_app. apply (pretty_N_has_no_newline (N.pos p)).
Qed.

Lemma escape_has_no_newline (c : ascii) : has_newline (escape c) = false.
Proof. destruct c as [[] [] [] [] [] [] [] []]; reflexivity. Qed.

Lemma quote_has_no_newline (s : string) : has_newline (quote s) = false.
Proof.
  unfold quote. simpl. rewrite has_newline_app. simpl.
  rewrite orb_false_r. induction s as [|c s IH]; [reflexivity|].
  simpl. now rewrite has_newline_app, escape_has_no_newline, IH.
Qed.

Lemma JSON_stringify_has_no_newline (u : User) :
  has_newline (JSON_stringify u) = false.
Proof.
  unfold JSON_stringify.
  rewrite !has_newline_app, !quote_has_no_newline, !pretty_has_no_newline.
  reflexivity.
Qed.

Lemma JSON_stringify_not_blank (u : User) :
  String.eqb (trim (JSON_stringify u)) EmptyString = false.
Proof.
  unfold JSON_stringify.
  change ("{" +:+ ?x) with (String "{" x).
  unfold trim. simpl trimStart. simpl trimEnd.
  destruct (trimEnd _); reflexivity.
Qed.

Lemma trailing_segment_terminated (s : string) :
  has_newline s = false -> trailing_segment (terminated s) = EmptyString.
Proof.
  intros H. unfold trailing_segment.
  now rewrite split_newline_terminated.
Qed.

(** The complete lines of lines written one after the other. *)
Lemma complete_lines_of_lines (lines : list string) :
  Forall (fun line => has_newline line = false) lines ->
  complete_lines (concat_chunks (List.map terminated lines)) = lines.
Proof.
  induction 1 as [|line lines Hl _ IH]; [reflexivity|].
  simpl List.map. simpl concat_chunks.
  rewrite complete_lines_app, (complete_lines_terminated _ Hl).
  rewrite (trailing_segment_terminated _ Hl).
  change (EmptyString +:+ ?x) with x. now rewrite IH.
Qed.

Section ClientAndServer.

Variable JSON_parse : string -> option JsValue.

Lemma served_record_is_accepted (u : User) :
  JSON_parse (JSON_stringify u) = Some (json_of_user u) ->
  user_id u <> 0 ->
  user_name u <> EmptyString ->
  try_line JSON_parse (JSON_stringify u) = LineAccepted (json_of_user u).
Proof.
  intros Hparse Hid Hname. unfold try_line.
  rewrite JSON_stringify_not_blank, Hparse. simpl.
  destruct (Z.eqb_spec (user_id u) 0); [contradiction|]. simpl.
  destruct (String.eqb_spec (user_name u) EmptyString); [contradiction|].
  reflexivity.
Qed.

(** The loop on the lines of records that are all accepted and whose ids
    are new: it appends them one by one until the limit. *)
Lemma for_lines_served N (us done : list User) (st : App) (n : Z) :
  Forall (fun u => try_line JSON_parse (JSON_stringify u) =
                   LineAccepted (json_of_user u)) us ->
  NoDup (List.map user_id (done ++ us)) ->
  for_lines JSON_parse N (List.map JSON_stringify us)
    (setStreamUsers (fun _ => List.map json_of_user done) st, n) =
  (setStreamUsers
     (fun _ => List.map json_of_user (done ++ firstn (Z.to_nat (N - n)) us))
     st,
   n + Z.of_nat (length (firstn (Z.to_nat (N - n)) us))).
Proof.
  intros Hok. revert done n.
  induction Hok as [|u us Hu _ IH]; intros done n Hnd.
  - rewrite firstn_nil, app_nil_r. simpl. f_equal. lia.
  - simpl List.map. cbn [for_lines]. cbn [snd].
    destruct (n >=? N) eqn:E.
    + apply geb_true in E.
      replace (Z.to_nat (N - n)) with 0%nat by lia.
      simpl. rewrite app_nil_r. f_equal. lia.
    + apply geb_false in E.
      replace (Z.to_nat (N - n)) with (S (Z.to_nat (N - (n + 1)))) by lia.
      unfold step_line. rewrite Hu.
      assert (Hnew : existsb
                (fun p => strict_eq (field p "id") (field (json_of_user u) "id"))
                (List.map json_of_user done) = false).
      { apply not_true_is_false. rewrite existsb_exists.
        intros [p [Hp Heq]]. apply in_map_iff in Hp.
        destruct Hp as [v [<- Hv]]. simpl in Heq. apply Z.eqb_eq in Heq.
        rewrite map_app in Hnd. apply NoDup_app in Hnd.
        destruct Hnd as (_ & Hdis & _).
        apply (Hdis (user_id v)).
        - apply list_elem_of_In. now apply in_map.
        - rewrite Heq. simpl. left. }
      assert (Hstep :
        setStreamUsers (append_unless_exists (json_of_user u))
          (setStreamUsers (fun _ => List.map json_of_user done) st) =
        setStreamUsers (fun _ => List.map json_of_user (done ++ [u])) st).
      { unfold setStreamUsers, append_unless_exists. simpl.
        rewrite Hnew. now rewrite map_app. }
      rewrite Hstep, IH by (now rewrite <- app_assoc).
      simpl firstn. simpl length. rewrite <- app_assoc. simpl.
      f_equal. lia.
Qed.

(** X29: the client on the stream of the server. Let the server have
    written the records of a response, its counter being positive before
    the first (it starts at 1), let the runtime parse the text of each of
    them back to the record, and let the network deliver that text in
    chunks of any shape. Then with a limit [N >= 0] the client stores
    the first [N] records of the response, in order (all of them when
    there are fewer), counts as many, and logs nothing. *)
Theorem client_stores_the_first_records (draws : list Z) (c : Z) (N : Z)
  (chunks : list string) (st : App)
  (Hcounter : 1 <= c)
  (HN : 0 <= N)
  (Hparse :
     Forall (fun u => JSON_parse (JSON_stringify u) = Some (json_of_user u))
            (stream_sent (fst (stream_ticks draws (new_stream, c)))))
  (Hchunks :
     concat_chunks chunks =
     concat_chunks (stream_body (fst (stream_ticks draws (new_stream, c))))) :
  let sent := stream_sent (fst (stream_ticks draws (new_stream, c))) in
  let run := streamData JSON_parse (ok_response chunks) N st in
  streamUsers (run_app run) =
    List.map json_of_user (firstn (Z.to_nat N) sent) /\
  run_receivedCount run = Z.min N (Z.of_nat (length sent)) /\
  console (run_app run) = console st.
Proof.
  cbv zeta.
  set (sent := stream_sent (fst (stream_ticks draws (new_stream, c)))) in *.
  assert (Hsent : sent = fst (create_users (firstn 50 draws) c)).
  { unfold sent.
    pose proof (stream_ticks_from draws [] c ltac:(simpl; lia)) as H.
    cbv zeta in H.
    change (stream_ticks draws (new_stream, c))
      with (stream_ticks draws
              ({| stream_count := Z.of_nat (length (@nil User));
                  stream_sent := []; stream_ended := false |}, c)).
    now rewrite H. }
  assert (Hids : List.map user_id sent =
                 seqZ c (Z.of_nat (length (firstn 50 draws))))
    by (rewrite Hsent; apply create_users_ids).
  assert (Hok : Forall (fun u => try_line JSON_parse (JSON_stringify u) =
                                 LineAccepted (json_of_user u)) sent).
  { apply Forall_forall. intros u Hu.
    rewrite Forall_forall in Hparse. apply served_record_is_accepted.
    - now apply Hparse.
    - assert (Hin : user_id u ∈ List.map user_id sent).
      { apply list_elem_of_In, in_map. now apply list_elem_of_In. }
      rewrite Hids in Hin. apply elem_of_seqZ in Hin. lia.
    - pose proof (create_users_names (firstn 50 draws) c) as Hn.
      rewrite <- Hsent in Hn. rewrite Forall_forall in Hn.
      destruct (Hn u Hu) as [-> _]. discriminate. }
  assert (Hlines : complete_lines (concat_chunks chunks) =
                   List.map JSON_stringify sent).
  { rewrite Hchunks. unfold stream_body. fold sent.
    rewrite <- (List.map_map JSON_stringify terminated).
    apply complete_lines_of_lines. apply Forall_forall.
    intros line Hl. apply list_elem_of_In, in_map_iff in Hl.
    destruct Hl as [u [<- _]]. apply JSON_stringify_has_no_newline. }
  rewrite streamData_state, streamData_count, Hlines.
  change (setStreamUsers (fun _ => []) st)
    with (setStreamUsers (fun _ => List.map json_of_user []) st).
  rewrite (for_lines_served N sent [] st 0 Hok)
    by (simpl; rewrite Hids; apply NoDup_seqZ).
  simpl. rewrite Z.sub_0_r. split; [reflexivity|]. split; [|reflexivity].
  rewrite length_firstn. lia.
Qed.

End ClientAndServer.

(** ** The client on the pages of the server *)

Lemma serve_pages_keys random order c :
  List.map fst (fst (serve_pages random order c)) = order.
Proof.
  revert c. induction order as [|p ps IH]; intros c; [reflexivity|].
  cbn [serve_pages].
  destruct (get_users (Some p) None (random p) c) as [sent c1].
  specialize (IH c1). destruct (serve_pages random ps c1) as [others c2].
  simpl in *. now rewrite IH.
Qed.

Lemma get_users_fifty page random c :
  List.map user_id (fst (get_users (Some page) None random c)) = seqZ c 50 /\
  snd (get_users (Some page) None random c) = c + 50.
Proof.
  unfold get_users. simpl or_else.
  set (draws := List.map random (List.seq 0 (Z.to_nat 50))).
  assert (Hlen : length draws = 50%nat) by reflexivity.
  rewrite create_users_ids, (proj2 (create_users_length draws c)), Hlen.
  split; reflexivity.
Qed.

Lemma serve_pages_ids random order c :
  List.map user_id (List.concat (List.map snd (fst (serve_pages random order c))))
    = seqZ c (50 * Z.of_nat (length order)) /\
  snd (serve_pages random order c) = c + 50 * Z.of_nat (length order).
Proof.
  revert c. induction order as [|p ps IH]; intros c.
  - simpl. split; [reflexivity|lia].
  - cbn [serve_pages].
    destruct (get_users_fifty p (random p) c) as [H1 H2].
    destruct (get_users (Some p) None (random p) c) as [sent c1].
    simpl in H1, H2. subst c1.
    destruct (IH (c + 50)) as [G1 G2].
    destruct (serve_pages random ps (c + 50)) as [others c2].
    simpl in *. rewrite map_app, H1, G1. split; [|lia].
    replace (50 * Z.of_nat (S (length ps)))
      with (50 + 50 * Z.of_nat (length ps)) by lia.
    rewrite seqZ_app by lia. reflexivity.
Qed.

Lemma flat_map_agree {A B} (f g : A -> list B) (l : list A) :
  (forall x, In x l -> f x = g x) -> flat_map f l = flat_map g l.
Proof.
  induction l as [|x l IH]; intros H; simpl; [reflexivity|].
  rewrite (H x) by now left. rewrite IH; [reflexivity|].
  intros y Hy. apply H. now right.
Qed.

(** Going through the pages that were handled, each once, collects all
    the records that were sent. *)
Lemma sent_for_all (answers : list (Z * list User)) :
  NoDup (List.map fst answers) ->
  flat_map (sent_for answers) (List.map fst answers) =
  List.concat (List.map snd answers).
Proof.
  induction answers as [|[p sent] rest IH]; intros Hnd; [reflexivity|].
  simpl List.map in *. apply NoDup_cons in Hnd. destruct Hnd as [Hp Hnd].
  simpl flat_map. simpl List.concat.
  assert (Hhead : sent_for ((p, sent) :: rest) p = sent).
  { unfold sent_for, answer_for. simpl. now rewrite Z.eqb_refl. }
  rewrite Hhead. f_equal. rewrite <- (IH Hnd).
  apply flat_map_agree. intros q Hq. unfold sent_for, answer_for. simpl.
  destruct (Z.eqb_spec p q) as [->|_]; [|reflexivity].
  destruct Hp. now apply list_elem_of_In.
Qed.

Lemma settle_handled (answers : list (Z * list User)) (pages : list Z) :
  (forall p, In p pages -> In p (List.map fst answers)) ->
  List.map (settle answers) pages =
  List.map Fulfilled (List.map (sent_for answers) pages).
Proof.
  intros H. rewrite List.map_map. apply map_ext_in. intros p Hp.
  unfold settle, sent_for, answer_for.
  destruct (List.find _ answers) as [a|] eqn:E; [reflexivity|].
  apply H, in_map_iff in Hp. destruct Hp as [a [Ha Hin]].
  apply (find_none _ _ E) in Hin. simpl in Hin.
  rewrite Ha, Z.eqb_refl in Hin. discriminate.
Qed.

Lemma result_value_fulfilled (values : list (list User)) :
  List.map result_value (List.map Fulfilled values) = values.
Proof.
  induction values as [|v vs IH]; simpl; [reflexivity|]. now rewrite IH.
Qed.

Lemma Promise_all_of_fulfilled {A} (values : list A) :
  Promise_all (List.map Fulfilled values) = Fulfilled values.
Proof. now apply Promise_all_fulfilled. Qed.

Lemma page_numbers_NoDup n : NoDup (page_numbers n).
Proof.
  unfold page_numbers. apply NoDup_ListNoDup, Finite.Injective_map_NoDup.
  - intros x y. lia.
  - apply List.seq_NoDup.
Qed.

(** The records the client gets in one round: a rearrangement, page by
    page, of what the server sent in the order it handled the pages. *)
Lemma round_records random order pages c :
  Permutation order pages -> NoDup pages ->
  let answers := fst (serve_pages random order c) in
  List.map (settle answers) pages =
    List.map Fulfilled (List.map (sent_for answers) pages) /\
  Permutation
    (List.map user_id (List.concat (List.map (sent_for answers) pages)))
    (seqZ c (50 * Z.of_nat (length pages))).
Proof.
  intros Hperm Hnd. cbv zeta.
  set (answers := fst (serve_pages random order c)).
  assert (Hkeys : List.map fst answers = order) by apply serve_pages_keys.
  split.
  - apply settle_handled. intros p Hp. rewrite Hkeys.
    eapply Permutation_in; [symmetry; exact Hperm|exact Hp].
  - rewrite <- flat_map_concat_map.
    transitivity (List.map user_id (flat_map (sent_for answers) order)).
    + apply Permutation_map. apply Permutation_flat_map.
      now symmetry.
    + rewrite <- Hkeys at 1. rewrite sent_for_all.
      * unfold answers. rewrite (proj1 (serve_pages_ids random order c)).
        now rewrite (Permutation_length Hperm).
      * rewrite Hkeys, Hperm. exact Hnd.
Qed.

(** X30: the client on the pages of the server. Let the cache hold no
    valid entry and let the server answer both rounds of requests, each
    round in any order, from the counter [c]. The handler ignores the
    page and the client sends no limit, so every answer holds fifty new
    records: the call shows one hundred records for each page asked,
    with the ids [c], [c + 1], ... each once; the merge removes nothing. *)
Theorem fetch_shows_a_hundred_records_per_page
  (random1 random2 : Z -> nat -> Z) (order1 order2 : list Z) (c : Z)
  (clock : FetchEnv) (pagesToFetch : Z) (st : App)
  (Hmiss :
     fst (getFromCache (now_lookup clock) "users" (localStorage st)) = None)
  (Horder1 : Permutation order1 (page_numbers pagesToFetch))
  (Horder2 : Permutation order2 (page_numbers pagesToFetch)) :
  let env := served_by random1 random2 order1 order2 c clock in
  let after := fetchParallelData env pagesToFetch st in
  let pages := length (page_numbers pagesToFetch) in
  length (users after) = (100 * pages)%nat /\
  Permutation (List.map user_id (users after))
              (seqZ c (100 * Z.of_nat pages)) /\
  NoDup (List.map user_id (users after)) /\
  users after =
    List.concat (List.map result_value
                   (List.map (fetch_all env) (page_numbers pagesToFetch))) ++
    List.concat (List.map result_value
                   (List.map (fetch_settled env)
                      (page_numbers pagesToFetch))) /\
  dataSource after = Some "server".
Proof.
  cbv zeta.
  set (env := served_by random1 random2 order1 order2 c clock).
  set (pages := page_numbers pagesToFetch).
  pose proof (page_numbers_NoDup pagesToFetch) as Hnd. fold pages in Hnd.
  set (round1 := serve_pages random1 order1 c).
  set (round2 := serve_pages random2 order2 (snd round1)).
  destruct (round_records random1 order1 pages c Horder1 Hnd) as [A1 P1].
  destruct (round_records random2 order2 pages (snd round1) Horder2 Hnd)
    as [A2 P2].
  fold round1 in A1, P1. fold round2 in A2, P2.
  assert (Hc1 : snd round1 = c + 50 * Z.of_nat (length pages)).
  { unfold round1. rewrite (proj2 (serve_pages_ids random1 order1 c)).
    now rewrite (Permutation_length Horder1). }
  assert (Hall : Promise_all (List.map (fetch_all env) pages) =
                 Fulfilled (List.map (sent_for (fst round1)) pages)).
  { change (fetch_all env) with (settle (fst round1)).
    rewrite A1. apply Promise_all_of_fulfilled. }
  assert (Hmiss' : fst (getFromCache (now_lookup env) "users"
                          (localStorage st)) = None) by exact Hmiss.
  rewrite (fetchParallelData_server env pagesToFetch st _ Hmiss' Hall).
  cbv zeta. cbn [users dataSource].
  change (fetch_settled env) with (settle (fst round2)).
  change (fetch_all env) with (settle (fst round1)).
  fold pages. rewrite A1, A2, successfulData_fulfilled.
  rewrite !result_value_fulfilled.
  set (first := List.concat (List.map (sent_for (fst round1)) pages)) in *.
  set (second := List.concat (List.map (sent_for (fst round2)) pages)) in *.
  assert (Hids : Permutation (List.map user_id (first ++ second))
                   (seqZ c (100 * Z.of_nat (length pages)))).
  { rewrite map_app, P1, P2, Hc1.
    replace (100 * Z.of_nat (length pages))
      with (50 * Z.of_nat (length pages) + 50 * Z.of_nat (length pages))
      by lia.
    rewrite seqZ_app by lia. reflexivity. }
  assert (Hdistinct : NoDup (List.map user_id (first ++ second))).
  { rewrite Hids. apply NoDup_seqZ. }
  rewrite combinedUsers_dedupe, (dedupe_by_id_distinct _ Hdistinct).
  split; [|split; [exact Hids|split; [exact Hdistinct|split; reflexivity]]].
  rewrite <- (length_map user_id), (Permutation_length Hids), length_seqZ.
  lia.
Qed.

Lemma client_stores_the_first_records_witness :
  let res := fst (stream_ticks [5; 20; 49; 0] (new_stream, 1)) in
  let chunks := [concat_chunks (stream_body res)] in
  1 <= 1 /\ 0 <= 2 /\
  Forall (fun u => parse_json (JSON_stringify u) = Some (json_of_user u))
         (stream_sent res) /\
  streamUsers
    (run_app (streamData parse_json (ok_response chunks) 2 (initial_app ∅))) =
  List.map json_of_user (firstn 2 (stream_sent res)).
Proof.
  cbv zeta.
  assert (H1 : 1 <= 1) by lia.
  assert (H2 : 0 <= 2) by lia.
  assert (H3 : Forall
                 (fun u => parse_json (JSON_stringify u) =
                           Some (json_of_user u))
                 (stream_sent
                    (fst (stream_ticks [5; 20; 49; 0] (new_stream, 1))))).
  { change (stream_sent (fst (stream_ticks [5; 20; 49; 0] (new_stream, 1))))
      with (fst (create_users [5; 20; 49; 0] 1)).
    repeat constructor. }
  assert (H4 : concat_chunks
                 [concat_chunks
                    (stream_body
                       (fst (stream_ticks [5; 20; 49; 0] (new_stream, 1))))] =
               concat_chunks
                 (stream_body
                    (fst (stream_ticks [5; 20; 49; 0] (new_stream, 1)))))
    by apply append_empty_r.
  split; [exact H1|]. split; [exact H2|]. split; [exact H3|].
  exact (proj1 (client_stores_the_first_records parse_json
                  [5; 20; 49; 0] 1 2 _ (initial_app ∅) H1 H2 H3 H4)).
Defined.

Lemma fetch_shows_a_hundred_records_per_page_witness :
  let random := fun (_ : Z) (_ : nat) => 7 in
  let env := served_by random random [2; 1] [1; 2] 1 all_pages_arrive in
  Permutation [2; 1] (page_numbers 2) /\
  Permutation [1; 2] (page_numbers 2) /\
  length (users (fetchParallelData env 2 (initial_app ∅))) = 200%nat.
Proof.
  cbv zeta.
  assert (H0 : fst (getFromCache (now_lookup all_pages_arrive) "users"
                      (localStorage (initial_app ∅))) = None)
    by reflexivity.
  assert (H1 : Permutation [2; 1] (page_numbers 2)) by apply perm_swap.
  assert (H2 : Permutation [1; 2] (page_numbers 2)) by reflexivity.
  split; [exact H1|]. split; [exact H2|].
  exact (proj1 (fetch_shows_a_hundred_records_per_page
                  (fun _ _ => 7) (fun _ _ => 7) [2; 1] [1; 2] 1
                  all_pages_arrive 2 (initial_app ∅) H0 H1 H2)).
Defined.
